(** * Themis: port allocation engine and durable name→port store

    A shallow embedding of the Go packages [port] (the PortManager of
    internal/server/server.go) and [storage] (internal/storage/storage.go),
    with the properties of the specification proved over it.

    Conventions.
    - Go's [int] is the 64-bit two's-complement integer of the usual
      platforms; it is a [Z] and every arithmetic operation of the source is
      written with its wrap-around ([GoInt.wrap]).
    - A Go map is a stdpp [gmap]; reading a missing key gives the zero value.
    - A Go function that can panic returns a [Run]; a Go [error] result is an
      [option error] where [None] is [nil].
    - Mutable receivers are passed explicitly: a method takes the receiver
      and returns the updated receiver.
    - The operating system, the random generator, the clock and the file
      system are explicit arguments. *)

From Stdlib Require Import ZArith Lia Bool Ascii String.
From stdpp Require Import gmap strings list fin_maps sorting.

Open Scope Z_scope.

(** ** Go runtime basics *)

Inductive GoPanic :=
| PanicIntn            (* rand.Intn: "invalid argument to Intn" *)
| PanicMakeslice       (* runtime: "makeslice: cap out of range" *)
| PanicCloseClosed     (* runtime: "close of closed channel" *)
| PanicNewTicker.      (* time: "non-positive interval for NewTicker" *)

Inductive Run (A : Type) :=
| Returned (a : A)
| Panicked (why : GoPanic).
Arguments Returned {A} a.
Arguments Panicked {A} why.

Definition panics {A} (r : Run A) : Prop := ∃ why, r = Panicked why.

Module GoInt.

Definition MaxInt : Z := 2 ^ 63 - 1.
Definition MinInt : Z := - 2 ^ 63.

(** The value of an [int] expression whose mathematical value is [z]. *)
Definition wrap (z : Z) : Z := (z + 2 ^ 63) mod 2 ^ 64 - 2 ^ 63.

Definition add (a b : Z) : Z := wrap (a + b).
Definition sub (a b : Z) : Z := wrap (a - b).
Definition mul (a b : Z) : Z := wrap (a * b).

End GoInt.

(** ** Package port *)

Module Port.

(** The errors the package builds with [fmt.Errorf], by format string. *)
Inductive error :=
| ErrNoAvailablePort                  (* "无法找到可用端口" *)
| ErrCountNotPositive                 (* "端口数量必须大于0" *)
| ErrPartial (found count : Z)        (* "只找到%d个可用端口，需要%d个" *)
| ErrInvalidRange (minPort maxPort : Z). (* "无效的端口范围: %d-%d" *)

(** The network stack as [checkPortBySocket] sees it: whether each of its
    three calls succeeds for the address ":port". *)
Record OS := {
  tcpListen : Z → bool;        (* net.Listen("tcp", addr) returns no error *)
  resolveUDPAddr : Z → bool;   (* net.ResolveUDPAddr("udp", addr) returns no error *)
  listenUDP : Z → bool         (* net.ListenUDP("udp", udpAddr) returns no error *)
}.

(** The calls into package net that an operation made, in order. *)
Inductive NetCall :=
| ListenTCP (port : Z)
| CloseTCP (port : Z)
| ResolveUDP (port : Z)
| ListenUDP (port : Z)
| CloseUDP (port : Z).

Record PortManager := {
  minPort : Z;
  maxPort : Z;
  usedPorts : gmap Z bool
}.

Definition NewPortManager (minPort maxPort : Z) : PortManager :=
  {| minPort := minPort; maxPort := maxPort; usedPorts := ∅ |}.

(** [pm.usedPorts[port]]: a missing key reads as [false]. *)
Definition used (pm : PortManager) (port : Z) : bool :=
  default false (usedPorts pm !! port).

Definition checkPortBySocket (os : OS) (port : Z) : bool * list NetCall :=
  if negb (tcpListen os port) then (false, [ListenTCP port])
  else if negb (resolveUDPAddr os port) then
    (false, [ListenTCP port; CloseTCP port; ResolveUDP port])
  else if negb (listenUDP os port) then
    (false, [ListenTCP port; CloseTCP port; ResolveUDP port; ListenUDP port])
  else
    (true, [ListenTCP port; CloseTCP port; ResolveUDP port; ListenUDP port;
            CloseUDP port]).

Definition IsPortAvailable (pm : PortManager) (os : OS) (port : Z)
  : bool * list NetCall :=
  if (port <? minPort pm) || (port >? maxPort pm) then (false, [])
  else if used pm port then (false, [])
  else checkPortBySocket os port.

Definition markPortAsUsed (pm : PortManager) (port : Z) : PortManager :=
  {| minPort := minPort pm; maxPort := maxPort pm;
     usedPorts := <[port := true]> (usedPorts pm) |}.

Definition ReleasePort (pm : PortManager) (port : Z) : PortManager :=
  {| minPort := minPort pm; maxPort := maxPort pm;
     usedPorts := delete port (usedPorts pm) |}.

Definition SetPortRange (pm : PortManager) (minPort' maxPort' : Z)
  : option error * PortManager :=
  if (minPort' <=? 0) || (maxPort' <=? 0) || (minPort' >? maxPort') then
    (Some (ErrInvalidRange minPort' maxPort'), pm)
  else
    (None, {| minPort := minPort'; maxPort := maxPort';
              usedPorts := usedPorts pm |}).

Definition GetPortRange (pm : PortManager) : Z * Z := (minPort pm, maxPort pm).

(** What an allocation call sees of the outside world: the raw output of
    the random generator at its [i]-th draw and the network stack during
    its [i]-th attempt. *)
Record Env := {
  rnd : nat → Z;
  os : nat → OS
}.

(** [rand.Intn(n)]: panics for [n <= 0], else a value of [0, n). *)
Definition Intn (raw n : Z) : Run Z :=
  if n <=? 0 then Panicked PanicIntn else Returned (raw mod n).

(** [pm.maxPort-pm.minPort+1] *)
Definition span (pm : PortManager) : Z :=
  GoInt.add (GoInt.sub (maxPort pm) (minPort pm)) 1.

(** [rand.Intn(pm.maxPort-pm.minPort+1) + pm.minPort] at draw [i]. *)
Definition candidate (e : Env) (pm : PortManager) (i : nat) : Run Z :=
  match Intn (rnd e i) (span pm) with
  | Panicked why => Panicked why
  | Returned r => Returned (GoInt.add r (minPort pm))
  end.

(** Attempt [k] drew a candidate that IsPortAvailable turned down. *)
Definition rejected (e : Env) (pm : PortManager) (k : nat) : Prop :=
  ∃ q, candidate e pm k = Returned q ∧ (IsPortAvailable pm (os e k) q).1 = false.

(** The result of an allocation call: the returned values, the manager
    after the call, the number of random draws and the net calls made. *)
Record Alloc (A : Type) := {
  value : A;
  err : option error;
  mgr : PortManager;
  draws : nat;
  netcalls : list NetCall
}.
Arguments value {A} _.
Arguments err {A} _.
Arguments mgr {A} _.
Arguments draws {A} _.
Arguments netcalls {A} _.

(** The loop [for i := 0; i < 100; i++] of GetRandomPort, entered with
    [100 - i = left] iterations to go. *)
Fixpoint GetRandomPort_loop (e : Env) (pm : PortManager) (left : nat) (i : nat)
    (calls : list NetCall) : Run (Alloc Z) :=
  match left with
  | O => Returned {| value := 0; err := Some ErrNoAvailablePort; mgr := pm;
                     draws := i; netcalls := calls |}
  | S left' =>
    match candidate e pm i with
    | Panicked why => Panicked why
    | Returned port =>
      let '(ok, cs) := IsPortAvailable pm (os e i) port in
      if ok then
        Returned {| value := port; err := None; mgr := markPortAsUsed pm port;
                    draws := S i; netcalls := calls ++ cs |}
      else GetRandomPort_loop e pm left' (S i) (calls ++ cs)
    end
  end.

Definition GetRandomPort (e : Env) (pm : PortManager) : Run (Alloc Z) :=
  GetRandomPort_loop e pm 100 0 [].

(** [make([]int, 0, count)] for [count > 0]: the runtime panics when the
    capacity times the element size (8 bytes) exceeds its allocation limit
    (2^48 bytes on 64-bit Linux). Running out of memory below that limit is
    outside the model. *)
Definition maxSliceCap : Z := 2 ^ 45.

(** [for _, p := range ports { if p == port { ... } }] *)
Fixpoint alreadyExists (ports : list Z) (port : Z) : bool :=
  match ports with
  | [] => false
  | p :: ports' => if p =? port then true else alreadyExists ports' port
  end.

(** The loop [for i := 0; i < count*100 && len(ports) < count; i++] of
    GetRandomPorts, entered with [count*100 - i = left]. *)
Fixpoint GetRandomPorts_loop (e : Env) (count : Z) (pm : PortManager)
    (left : nat) (i : nat) (ports : list Z) (calls : list NetCall)
  : Run (PortManager * nat * list Z * list NetCall) :=
  match left with
  | O => Returned (pm, i, ports, calls)
  | S left' =>
    if Z.of_nat (length ports) <? count then
      match candidate e pm i with
      | Panicked why => Panicked why
      | Returned port =>
        let '(ok, cs) := IsPortAvailable pm (os e i) port in
        if ok && negb (alreadyExists ports port) then
          GetRandomPorts_loop e count (markPortAsUsed pm port) left' (S i)
                              (ports ++ [port]) (calls ++ cs)
        else GetRandomPorts_loop e count pm left' (S i) ports (calls ++ cs)
      end
    else Returned (pm, i, ports, calls)
  end.

Definition GetRandomPorts (e : Env) (pm : PortManager) (count : Z)
  : Run (Alloc (list Z)) :=
  if count <=? 0 then
    Returned {| value := []; err := Some ErrCountNotPositive; mgr := pm;
                draws := O; netcalls := [] |}
  else if count >? maxSliceCap then Panicked PanicMakeslice
  else
    match GetRandomPorts_loop e count pm (Z.to_nat (GoInt.mul count 100)) 0 [] [] with
    | Panicked why => Panicked why
    | Returned (pm', n, ports, calls) =>
      if Z.of_nat (length ports) <? count then
        Returned {| value := ports;
                    err := Some (ErrPartial (Z.of_nat (length ports)) count);
                    mgr := pm'; draws := n; netcalls := calls |}
      else
        Returned {| value := ports; err := None; mgr := pm'; draws := n;
                    netcalls := calls |}
    end.

(** What the loop of GetRandomPorts keeps true of the ports chosen so far,
    from the manager [pm0] of its beginning to the manager [pm] it holds. *)
Record batch (pm0 pm : PortManager) (count : Z) (ports : list Z) : Prop := {
  batch_nodup : NoDup ports;
  batch_range : ∀ p, p ∈ ports → minPort pm0 ≤ p ≤ maxPort pm0;
  batch_used : ∀ p, p ∈ ports → used pm p = true;
  batch_kept : ∀ q, used pm0 q = true → used pm q = true;
  batch_bounds : minPort pm = minPort pm0 ∧ maxPort pm = maxPort pm0
}.

(** A call on the manager from a client, with what the call sees of the
    outside world; [call] gives the manager after it. *)
Inductive Call :=
| CallIsPortAvailable (os : OS) (port : Z)
| CallGetRandomPort (e : Env)
| CallGetRandomPorts (e : Env) (count : Z)
| CallReleasePort (port : Z)
| CallSetPortRange (minPort maxPort : Z)
| CallGetPortRange.

Definition call (pm : PortManager) (c : Call) : Run PortManager :=
  match c with
  | CallIsPortAvailable _ _ => Returned pm
  | CallGetRandomPort e =>
    match GetRandomPort e pm with
    | Panicked why => Panicked why
    | Returned a => Returned (mgr a)
    end
  | CallGetRandomPorts e count =>
    match GetRandomPorts e pm count with
    | Panicked why => Panicked why
    | Returned a => Returned (mgr a)
    end
  | CallReleasePort port => Returned (ReleasePort pm port)
  | CallSetPortRange a b => Returned (SetPortRange pm a b).2
  | CallGetPortRange => Returned pm
  end.

Fixpoint calls (pm : PortManager) (cs : list Call) : Run PortManager :=
  match cs with
  | [] => Returned pm
  | c :: cs' =>
    match call pm c with
    | Panicked why => Panicked why
    | Returned pm' => calls pm' cs'
    end
  end.

(** A network stack on which every bind succeeds, and a world that never
    changes. *)
Definition allFree : OS :=
  {| tcpListen := λ _, true; resolveUDPAddr := λ _, true;
     listenUDP := λ _, true |}.
Definition still (raw : Z) (o : OS) : Env := {| rnd := λ _, raw; os := λ _, o |}.

(** A network stack on which only [port] can be bound, and a generator
    whose [i]-th raw output is [i]. *)
Definition onlyFree (port : Z) : OS :=
  {| tcpListen := λ p, p =? port; resolveUDPAddr := λ _, true;
     listenUDP := λ p, p =? port |}.
Definition counting (o : OS) : Env := {| rnd := Z.of_nat; os := λ _, o |}.

End Port.

(** ** Goroutines running GetRandomPort on one shared PortManager

    Between two accesses to shared state a goroutine can be preempted. One
    [step] below is either a critical section of [pm.mu] (taken as a whole:
    the lock makes it atomic) or code that touches no shared state, so every
    schedule of this model is a schedule of the program. *)

Module Interleaving.
Import Port.

(** Where a goroutine stands in GetRandomPort. *)
Inductive Thread :=
| AtLoop (i : nat)              (* at the loop test [i < 100] *)
| AtRLock (i : nat) (port : Z)  (* in IsPortAvailable, range check passed,
                                   before [pm.mu.RLock()] *)
| AtProbe (i : nat) (port : Z)  (* after [pm.mu.RUnlock()] with [used] false,
                                   before checkPortBySocket *)
| AtLock (i : nat) (port : Z)   (* IsPortAvailable returned true, before
                                   [pm.mu.Lock()] of markPortAsUsed *)
| Done (port : Z) (err : option error)
| Crashed (why : GoPanic).

(** What a goroutine does to [pm.mu] and [pm.usedPorts]. *)
Inductive Access :=
| RLock | RUnlock | Lock | Unlock
| ReadUsed (port : Z) (used : bool)
| WriteUsed (port : Z).

Definition step (e : Env) (pm : PortManager) (t : Thread)
  : Thread * PortManager * list Access :=
  match t with
  | AtLoop i =>
    if (100 <=? i)%nat then (Done 0 (Some ErrNoAvailablePort), pm, [])
    else match candidate e pm i with
         | Panicked why => (Crashed why, pm, [])
         | Returned port =>
           if (port <? minPort pm) || (port >? maxPort pm)
           then (AtLoop (S i), pm, [])
           else (AtRLock i port, pm, [])
         end
  | AtRLock i port =>
    (if used pm port then AtLoop (S i) else AtProbe i port, pm,
     [RLock; ReadUsed port (used pm port); RUnlock])
  | AtProbe i port =>
    (if (checkPortBySocket (os e i) port).1 then AtLock i port
     else AtLoop (S i), pm, [])
  | AtLock i port =>
    (Done port None, markPortAsUsed pm port, [Lock; WriteUsed port; Unlock])
  | Done _ _ | Crashed _ => (t, pm, [])
  end.

(** One goroutine running alone for [n] steps. *)
Fixpoint solo (e : Env) (n : nat) (pm : PortManager) (t : Thread)
  : Thread * PortManager :=
  match n with
  | O => (t, pm)
  | S n' => let '(t', pm', _) := step e pm t in solo e n' pm' t'
  end.

(** Two goroutines [A] and [B], each with its own view of the random
    generator, and the accesses made so far, tagged with their goroutine. *)
Inductive Tid := A | B.

Record Config := {
  thA : Thread;
  thB : Thread;
  shared : PortManager;
  accesses : list (Tid * Access)
}.

Definition start (pm : PortManager) : Config :=
  {| thA := AtLoop 0; thB := AtLoop 0; shared := pm; accesses := [] |}.

Definition sched1 (eA eB : Env) (c : Config) (who : Tid) : Config :=
  match who with
  | A => let '(t, pm, acc) := step eA (shared c) (thA c) in
         {| thA := t; thB := thB c; shared := pm;
            accesses := accesses c ++ ((λ a, (A, a)) <$> acc) |}
  | B => let '(t, pm, acc) := step eB (shared c) (thB c) in
         {| thA := thA c; thB := t; shared := pm;
            accesses := accesses c ++ ((λ a, (B, a)) <$> acc) |}
  end.

Definition run (eA eB : Env) (c : Config) (schedule : list Tid) : Config :=
  foldl (sched1 eA eB) c schedule.

(** The schedule of the race: A runs up to the end of IsPortAvailable, then
    B does the same, then each marks. *)
Definition race : list Tid := [A; A; A; B; B; B; A; B].

End Interleaving.

(** ** encoding/json on strings: coercion to valid UTF-8

    A Go string is a sequence of bytes, here a [string] of 8-bit [ascii].
    json.Marshal writes every byte that does not start a valid UTF-8
    sequence (utf8.DecodeRuneInString gives RuneError with size 1) as the
    escape of U+FFFD, and every valid sequence as a text that decodes back to
    the same bytes. *)

Module UTF8.

Definition byte (c : ascii) : N := Ascii.N_of_ascii c.

Definition between (lo hi : N) (c : ascii) : bool :=
  ((lo <=? byte c) && (byte c <=? hi))%N.

Definition cont (c : ascii) : bool := between 0x80 0xBF c.

Definition seq2 (c0 c1 : ascii) : bool := between 0xC2 0xDF c0 && cont c1.

Definition seq3 (c0 c1 c2 : ascii) : bool :=
  (between 0xE0 0xE0 c0 && between 0xA0 0xBF c1
   || between 0xE1 0xEC c0 && cont c1
   || between 0xED 0xED c0 && between 0x80 0x9F c1
   || between 0xEE 0xEF c0 && cont c1) && cont c2.

Definition seq4 (c0 c1 c2 c3 : ascii) : bool :=
  (between 0xF0 0xF0 c0 && between 0x90 0xBF c1
   || between 0xF1 0xF3 c0 && cont c1
   || between 0xF4 0xF4 c0 && between 0x80 0x8F c1) && cont c2 && cont c3.

(** U+FFFD in UTF-8: EF BF BD. *)
Definition RuneError : string :=
  String (Ascii.ascii_of_N 0xEF)
    (String (Ascii.ascii_of_N 0xBF) (String (Ascii.ascii_of_N 0xBD) EmptyString)).

(** The bytes a JSON decoder reads back from the string json.Marshal wrote
    for [s]. *)
Fixpoint toValidUTF8 (s : string) : string :=
  match s with
  | EmptyString => EmptyString
  | String c0 s0 =>
    if (byte c0 <? 0x80)%N then String c0 (toValidUTF8 s0) else
    match s0 with
    | String c1 s1 =>
      if seq2 c0 c1 then String c0 (String c1 (toValidUTF8 s1)) else
      match s1 with
      | String c2 s2 =>
        if seq3 c0 c1 c2 then
          String c0 (String c1 (String c2 (toValidUTF8 s2)))
        else
        match s2 with
        | String c3 s3 =>
          if seq4 c0 c1 c2 c3 then
            String c0 (String c1 (String c2 (String c3 (toValidUTF8 s3))))
          else (RuneError +:+ toValidUTF8 s0)%string
        | EmptyString => (RuneError +:+ toValidUTF8 s0)%string
        end
      | EmptyString => (RuneError +:+ toValidUTF8 s0)%string
      end
    | EmptyString => (RuneError +:+ toValidUTF8 s0)%string
    end
  end.

(** utf8.ValidString *)
Fixpoint ValidString (s : string) : bool :=
  match s with
  | EmptyString => true
  | String c0 s0 =>
    if (byte c0 <? 0x80)%N then ValidString s0 else
    match s0 with
    | String c1 s1 =>
      if seq2 c0 c1 then ValidString s1 else
      match s1 with
      | String c2 s2 =>
        if seq3 c0 c1 c2 then ValidString s2 else
        match s2 with
        | String c3 s3 => if seq4 c0 c1 c2 c3 then ValidString s3 else false
        | EmptyString => false
        end
      | EmptyString => false
      end
    | EmptyString => false
    end
  end.

End UTF8.

(** ** Package storage *)

Module Storage.

Inductive error :=
| ErrMkdir                   (* "创建数据目录失败: %v" *)
| ErrRead                    (* "读取数据文件失败: %v" *)
| ErrParse                   (* "解析数据文件失败: %v" *)
| ErrMarshal                 (* "序列化数据失败: %v" *)
| ErrWrite                   (* "写入数据文件失败: %v" *)
| ErrEmptyName               (* "APP名称不能为空" *)
| ErrInvalidPort (port : Z)  (* "无效的端口号: %d" *)
| ErrNotFound (appName : string). (* "APP '%s' 不存在" *)

(** [PortData]; a Go map field can be nil ([None]). *)
Record PortData := {
  AppPorts : option (gmap string Z);
  Timestamp : Z;
  Version : string
}.

(** The zero value [var portData PortData]. *)
Definition zeroPortData : PortData :=
  {| AppPorts := None; Timestamp := 0; Version := "" |}.

(** *** The backing file as encoding/json reads it

    The source looks at the bytes of the file only through [len(data) == 0]
    and [json.Unmarshal(data, &portData)], so a file is kept as what these
    two make of it: a JSON object is the sequence of its members that name a
    field of PortData (members of other names are skipped by Unmarshal), in
    the order of the text, each with null ([None]) or its value. *)
Inductive Member :=
| MAppPorts (v : option (list (string * Z)))  (* "app_ports": members in order *)
| MTimestamp (v : option Z)                   (* "timestamp" *)
| MVersion (v : option string).               (* "version" *)

Inductive FileData :=
| Empty                        (* no bytes *)
| Malformed                    (* bytes for which Unmarshal returns an error *)
| JSONNull                     (* the text null *)
| JSONObject (members : list Member).

(** [m[k] = v] for each member in order: a repeated key keeps the last. *)
Definition assign (m : gmap string Z) (kvs : list (string * Z)) : gmap string Z :=
  foldl (λ m kv, <[kv.1 := kv.2]> m) m kvs.

(** Unmarshal of one object member into [pd]: null sets a map to nil and
    leaves an int or a string as it is; an object is stored into the map
    the field already has, or into a new map when the field is nil. *)
Definition decodeMember (pd : PortData) (mb : Member) : PortData :=
  match mb with
  | MAppPorts None =>
    {| AppPorts := None; Timestamp := Timestamp pd; Version := Version pd |}
  | MAppPorts (Some kvs) =>
    {| AppPorts := Some (assign (default ∅ (AppPorts pd)) kvs);
       Timestamp := Timestamp pd; Version := Version pd |}
  | MTimestamp None | MVersion None => pd
  | MTimestamp (Some t) =>
    {| AppPorts := AppPorts pd; Timestamp := t; Version := Version pd |}
  | MVersion (Some v) =>
    {| AppPorts := AppPorts pd; Timestamp := Timestamp pd; Version := v |}
  end.

(** The object has no member for the field AppPorts. *)
Definition isAppPorts (mb : Member) : bool :=
  match mb with MAppPorts _ => true | _ => false end.
Definition noAppPorts (members : list Member) : bool :=
  forallb (λ mb, negb (isAppPorts mb)) members.

(** [json.Unmarshal(data, &portData)] on the zero value; [None] is an error. *)
Definition json_Unmarshal (data : FileData) : option PortData :=
  match data with
  | Empty | Malformed => None
  | JSONNull => Some zeroPortData
  | JSONObject members => Some (foldl decodeMember zeroPortData members)
  end.

(** The order of Go's [<] on strings: bytewise lexicographic. *)
Definition keyLe (a b : string * Z) : Prop := String.leb a.1 b.1 = true.

Global Instance keyLe_dec a b : Decision (keyLe a b).
Proof. unfold keyLe. apply _. Defined.

(** The members json.Marshal writes for a map: sorted by key, each key
    coerced to valid UTF-8. *)
Definition encodeMap (m : gmap string Z) : list (string * Z) :=
  (λ kv, (UTF8.toValidUTF8 kv.1, kv.2)) <$> merge_sort keyLe (map_to_list m).

(** [json.MarshalIndent(portData, "", "  ")]; it has no error for a
    PortData, whose fields are a map from strings to ints, an int64 and a
    string. *)
Definition json_MarshalIndent (pd : PortData) : option FileData :=
  Some (JSONObject [MAppPorts (encodeMap <$> AppPorts pd);
                    MTimestamp (Some (Timestamp pd));
                    MVersion (Some (UTF8.toValidUTF8 (Version pd)))]).

(** *** The file system

    [files] holds the data files by path, a path without entry being one
    that os.Stat reports as not existing; the three faults say which calls
    fail. A write that fails leaves the file as it was or as the fault says
    (truncated, partly written). *)
Inductive WriteFault :=
| WriteOK
| WriteFailsUntouched
| WriteFailsLeaving (data : FileData).

Record FS := {
  files : gmap string FileData;
  mkdirAll : string → bool;        (* os.MkdirAll(filepath.Dir(path), 0755) is nil *)
  readFile : string → bool;        (* os.ReadFile(path) has no error *)
  writeFile : string → WriteFault  (* os.WriteFile(path, data, 0644) *)
}.

Definition withFile (fs : FS) (path : string) (data : FileData) : FS :=
  {| files := <[path := data]> (files fs); mkdirAll := mkdirAll fs;
     readFile := readFile fs; writeFile := writeFile fs |}.

(** No call on [path] fails. *)
Definition healthy (fs : FS) (path : string) : Prop :=
  mkdirAll fs path = true ∧ readFile fs path = true ∧ writeFile fs path = WriteOK.

(** *** AppPortStorage

    [stopChan] is kept as whether the channel has been closed, [wg] as the
    counter of the WaitGroup: the flush goroutines started and not yet
    returned. *)
Record AppPortStorage := {
  appPorts : gmap string Z;
  dataFile : string;
  syncInterval : Z;
  stopChan : bool;
  wg : nat
}.

Definition NewAppPortStorage (dataFile : string) (syncInterval : Z)
  : AppPortStorage :=
  {| appPorts := ∅; dataFile := dataFile; syncInterval := syncInterval;
     stopChan := false; wg := O |}.

Definition withAppPorts (s : AppPortStorage) (m : gmap string Z) : AppPortStorage :=
  {| appPorts := m; dataFile := dataFile s; syncInterval := syncInterval s;
     stopChan := stopChan s; wg := wg s |}.

(** The snapshot saveToFile builds at time [now]: a fresh map with every
    entry of [s.appPorts] copied into it. *)
Definition snapshot (s : AppPortStorage) (now : Z) : PortData :=
  {| AppPorts := Some (map_fold (λ k v m, <[k := v]> m) ∅ (appPorts s));
     Timestamp := now; Version := "1.0" |}.

Definition saveToFile (s : AppPortStorage) (now : Z) (fs : FS)
  : option error * FS :=
  match json_MarshalIndent (snapshot s now) with
  | None => (Some ErrMarshal, fs)
  | Some data =>
    if negb (mkdirAll fs (dataFile s)) then (Some ErrMkdir, fs)
    else match writeFile fs (dataFile s) with
         | WriteOK => (None, withFile fs (dataFile s) data)
         | WriteFailsUntouched => (Some ErrWrite, fs)
         | WriteFailsLeaving torn => (Some ErrWrite, withFile fs (dataFile s) torn)
         end
  end.

Definition LoadFromFile (s : AppPortStorage) (now : Z) (fs : FS)
  : option error * AppPortStorage * FS :=
  if negb (mkdirAll fs (dataFile s)) then (Some ErrMkdir, s, fs)
  else match files fs !! dataFile s with
       | None => let '(err, fs') := saveToFile s now fs in (err, s, fs')
       | Some data =>
         if negb (readFile fs (dataFile s)) then (Some ErrRead, s, fs)
         else match data with
              | Empty => (None, s, fs)
              | _ =>
                match json_Unmarshal data with
                | None => (Some ErrParse, s, fs)
                | Some portData =>
                  (None,
                   withAppPorts s (match AppPorts portData with
                                   | Some m => m
                                   | None => ∅
                                   end),
                   fs)
                end
              end
       end.

Definition SetAppPort (s : AppPortStorage) (appName : string) (port : Z)
  : option error * AppPortStorage :=
  if decide (appName = "") then (Some ErrEmptyName, s)
  else if (port <=? 0) || (port >? 65535) then (Some (ErrInvalidPort port), s)
  else (None, withAppPorts s (<[appName := port]> (appPorts s))).

Definition GetAppPort (s : AppPortStorage) (appName : string)
  : Z * option error :=
  if decide (appName = "") then (0, Some ErrEmptyName)
  else match appPorts s !! appName with
       | None => (0, Some (ErrNotFound appName))
       | Some port => (port, None)
       end.

Definition DeleteAppPort (s : AppPortStorage) (now : Z) (fs : FS)
    (appName : string) : option error * AppPortStorage * FS :=
  if decide (appName = "") then (Some ErrEmptyName, s, fs)
  else match appPorts s !! appName with
       | None => (Some (ErrNotFound appName), s, fs)
       | Some _ =>
         let s' := withAppPorts s (delete appName (appPorts s)) in
         let '(err, fs') := saveToFile s' now fs in (err, s', fs')
       end.

Definition HasApp (s : AppPortStorage) (appName : string) : bool :=
  bool_decide (is_Some (appPorts s !! appName)).

Definition GetAllApps (s : AppPortStorage) : gmap string Z :=
  map_fold (λ k v m, <[k := v]> m) ∅ (appPorts s).

Definition SyncToFile (s : AppPortStorage) (now : Z) (fs : FS)
  : option error * FS := saveToFile s now fs.

(** StartAutoSync: [s.wg.Add(1)] and one more goroutine running the flush
    loop. [time.NewTicker] panics in that goroutine for an interval that is
    not positive, which ends the program. *)
Definition StartAutoSync (s : AppPortStorage) : Run AppPortStorage :=
  if syncInterval s <=? 0 then Panicked PanicNewTicker
  else Returned {| appPorts := appPorts s; dataFile := dataFile s;
                   syncInterval := syncInterval s; stopChan := stopChan s;
                   wg := S (wg s) |}.

(** One flush loop takes [case <-ticker.C]: a save whose error is only
    printed. Without a loop there is no ticker. *)
Definition tick (s : AppPortStorage) (now : Z) (fs : FS) : FS :=
  match wg s with
  | O => fs
  | S _ => (saveToFile s now fs).2
  end.

(** One flush loop takes [case <-s.stopChan], possible once the channel is
    closed, and returns: [s.wg.Done()]. *)
Definition loopExit (s : AppPortStorage) : AppPortStorage :=
  if stopChan s then
    {| appPorts := appPorts s; dataFile := dataFile s;
       syncInterval := syncInterval s; stopChan := stopChan s;
       wg := pred (wg s) |}
  else s.

(** StopAutoSync: [close(s.stopChan)], which panics on a closed channel;
    [s.wg.Wait()] returns once every flush loop has returned; then the last
    save, whose error is dropped. *)
Definition StopAutoSync (s : AppPortStorage) (now : Z) (fs : FS)
  : Run (AppPortStorage * FS) :=
  if stopChan s then Panicked PanicCloseClosed
  else
    let s' := {| appPorts := appPorts s; dataFile := dataFile s;
                 syncInterval := syncInterval s; stopChan := true; wg := O |} in
    Returned (s', (saveToFile s' now fs).2).

(** The life of a registry: calls of its clients and moves of its flush
    loops, in the order they take effect. *)
Inductive Event :=
| EvLoad (now : Z)
| EvSet (appName : string) (port : Z)
| EvDelete (appName : string) (now : Z)
| EvSync (now : Z)
| EvStart
| EvTick (now : Z)
| EvLoopExit
| EvStop (now : Z).

Definition event (st : AppPortStorage * FS) (ev : Event)
  : Run (AppPortStorage * FS) :=
  let '(s, fs) := st in
  match ev with
  | EvLoad now => let '(_, s', fs') := LoadFromFile s now fs in Returned (s', fs')
  | EvSet appName port => Returned ((SetAppPort s appName port).2, fs)
  | EvDelete appName now =>
    let '(_, s', fs') := DeleteAppPort s now fs appName in Returned (s', fs')
  | EvSync now => Returned (s, (SyncToFile s now fs).2)
  | EvStart =>
    match StartAutoSync s with
    | Panicked why => Panicked why
    | Returned s' => Returned (s', fs)
    end
  | EvTick now => Returned (s, tick s now fs)
  | EvLoopExit => Returned (loopExit s, fs)
  | EvStop now => StopAutoSync s now fs
  end.

Fixpoint events (st : AppPortStorage * FS) (evs : list Event)
  : Run (AppPortStorage * FS) :=
  match evs with
  | [] => Returned st
  | ev :: evs' =>
    match event st ev with
    | Panicked why => Panicked why
    | Returned st' => events st' evs'
    end
  end.

(** The number of StartAutoSync calls among [evs]. *)
Fixpoint starts (evs : list Event) : nat :=
  match evs with
  | [] => O
  | EvStart :: evs' => S (starts evs')
  | _ :: evs' => starts evs'
  end.

Definition isStop (ev : Event) : bool :=
  match ev with EvStop _ => true | _ => false end.

(** Every name of the map is valid UTF-8. *)
Definition validNames (m : gmap string Z) : Prop :=
  ∀ k, is_Some (m !! k) → UTF8.ValidString k = true.

(** A file system without faults and without files. *)
Definition emptyDisk : FS :=
  {| files := ∅; mkdirAll := λ _, true; readFile := λ _, true;
     writeFile := λ _, WriteOK |}.

End Storage.

(** ** The conversion to int32 *)

Module GoInt32.

Definition MaxInt32 : Z := 2 ^ 31 - 1.
Definition MinInt32 : Z := - 2 ^ 31.

(** [int32(z)] for an int [z]: the low 32 bits, signed. *)
Definition wrap (z : Z) : Z := (z + 2 ^ 31) mod 2 ^ 32 - 2 ^ 31.

End GoInt32.

(** ** Package config *)

Module Config.

Inductive error :=
| ErrListenType (listenType : string) (* "无效的监听类型: %s，必须是 'unix' 或 'tcp'" *)
| ErrUnixSocketEmpty                  (* "Unix socket路径不能为空" *)
| ErrHostEmpty                        (* "TCP监听主机不能为空" *)
| ErrTCPPort (port : Z)               (* "无效的TCP端口: %d" *)
| ErrPortsNotPositive                 (* "端口范围必须大于0" *)
| ErrMinAboveMax                      (* "最小端口不能大于最大端口" *)
| ErrDataFileEmpty                    (* "数据文件路径不能为空" *)
| ErrSyncInterval                     (* "同步间隔必须大于0" *)
| ErrReadConfig                       (* "读取配置文件失败: %v" *)
| ErrParseConfig                      (* "解析配置文件失败: %v" *)
| ErrInvalidConfig (why : error).     (* "配置验证失败: %v" *)

(** [ListenPort] is the field Port of ServerConfig. *)
Record ServerConfig := {
  ListenType : string;
  UnixSocket : string;
  Host : string;
  ListenPort : Z
}.

Record PortConfig := {
  MinPort : Z;
  MaxPort : Z
}.

Record StorageConfig := {
  DataFile : string;
  SyncInterval : Z
}.

Record Config := {
  Server : ServerConfig;
  Port : PortConfig;
  Storage : StorageConfig
}.

Definition DefaultConfig : Config :=
  {| Server := {| ListenType := "unix"; UnixSocket := "/var/run/Themis.sock";
                  Host := "localhost"; ListenPort := 9090 |};
     Port := {| MinPort := 10000; MaxPort := 20000 |};
     Storage := {| DataFile := "./data/ports.json"; SyncInterval := 60 |} |}.

(** [if cond { return err }] followed by [rest]. *)
Definition check (cond : bool) (err : error) (rest : option error)
  : option error := if cond then Some err else rest.

Definition Validate (c : Config) : option error :=
  let isUnix := bool_decide (ListenType (Server c) = "unix") in
  let isTCP := bool_decide (ListenType (Server c) = "tcp") in
  check (negb isUnix && negb isTCP) (ErrListenType (ListenType (Server c)))
  (check (isUnix && bool_decide (UnixSocket (Server c) = "")) ErrUnixSocketEmpty
  ((if isTCP then
      λ rest,
        check (bool_decide (Host (Server c) = "")) ErrHostEmpty
        (check ((ListenPort (Server c) <=? 0) || (ListenPort (Server c) >? 65535))
               (ErrTCPPort (ListenPort (Server c))) rest)
    else λ rest, rest)
  (check ((MinPort (Port c) <=? 0) || (MaxPort (Port c) <=? 0)) ErrPortsNotPositive
  (check (MinPort (Port c) >? MaxPort (Port c)) ErrMinAboveMax
  (check (bool_decide (DataFile (Storage c) = "")) ErrDataFileEmpty
  (check (SyncInterval (Storage c) <=? 0) ErrSyncInterval
   None)))))).

(** The file at configPath as LoadConfig sees it through os.Stat,
    os.ReadFile and json.Unmarshal: not existing, not readable, not decoded
    without error, or decoded into a Config. *)
Inductive ConfigFile :=
| NoFile
| Unreadable
| NotDecoded
| Decoded (c : Config).

Definition LoadConfig (file : ConfigFile) : option Config * option error :=
  match file with
  | NoFile => (Some DefaultConfig, None)
  | Unreadable => (None, Some ErrReadConfig)
  | NotDecoded => (None, Some ErrParseConfig)
  | Decoded c =>
    match Validate c with
    | Some err => (None, Some (ErrInvalidConfig err))
    | None => (Some c, None)
    end
  end.

(** What Validate asks of a configuration. *)
Definition valid (c : Config) : Prop :=
  (ListenType (Server c) = "unix" ∧ UnixSocket (Server c) ≠ "" ∨
   ListenType (Server c) = "tcp" ∧ Host (Server c) ≠ "" ∧
   1 ≤ ListenPort (Server c) ≤ 65535) ∧
  1 ≤ MinPort (Port c) ≤ MaxPort (Port c) ∧
  DataFile (Storage c) ≠ "" ∧
  1 ≤ SyncInterval (Storage c).

End Config.

(** ** Package server: the handlers of PortServer *)

Module Server.

(** What a handler writes into the field Error of its response: the text
    of an error of package port or of package storage (the handlers' own
    texts "端口数量必须大于0" and "APP名称不能为空" are the texts of
    [Port.ErrCountNotPositive] and [Storage.ErrEmptyName]), or the text of
    IsPortAvailable. *)
Inductive Failure :=
| PortFailure (e : Port.error)
| StorageFailure (e : Storage.error)
| ErrPortNumber.                      (* "端口号必须在1-65535范围内" *)

(** The response messages of package pb, generated code that is not in the
    sources, as the handlers fill them: the field Error, empty ([None])
    without error, and at most one other field (Port, Ports or Available),
    here [Value]. The request fields Count and Port are int32 values, on
    which [int(...)] changes nothing. *)
Record Response (A : Type) := {
  Value : A;
  Error : option Failure
}.
Arguments Value {A} _.
Arguments Error {A} _.

Record PortServer := {
  portManager : Port.PortManager;
  storage : Storage.AppPortStorage;
  config : Config.Config
}.

(** [time.Second], in nanoseconds. *)
Definition Second : Z := 1000000000.

Definition NewPortServer (cfg : Config.Config) : PortServer :=
  {| portManager :=
       Port.NewPortManager (Config.MinPort (Config.Port cfg))
                           (Config.MaxPort (Config.Port cfg));
     storage :=
       Storage.NewAppPortStorage
         (Config.DataFile (Config.Storage cfg))
         (GoInt.mul (Config.SyncInterval (Config.Storage cfg)) Second);
     config := cfg |}.

Definition withManager (s : PortServer) (pm : Port.PortManager) : PortServer :=
  {| portManager := pm; storage := storage s; config := config s |}.

Definition withStorage (s : PortServer) (st : Storage.AppPortStorage)
  : PortServer :=
  {| portManager := portManager s; storage := st; config := config s |}.

Definition GetRandomPort (e : Port.Env) (s : PortServer)
  : Run (Response Z * PortServer) :=
  match Port.GetRandomPort e (portManager s) with
  | Panicked why => Panicked why
  | Returned a =>
    match Port.err a with
    | Some err =>
      Returned ({| Value := 0; Error := Some (PortFailure err) |},
                withManager s (Port.mgr a))
    | None =>
      Returned ({| Value := GoInt32.wrap (Port.value a); Error := None |},
                withManager s (Port.mgr a))
    end
  end.

Definition GetRandomPorts (e : Port.Env) (s : PortServer) (Count : Z)
  : Run (Response (list Z) * PortServer) :=
  if Count <=? 0 then
    Returned ({| Value := [];
                 Error := Some (PortFailure Port.ErrCountNotPositive) |}, s)
  else
    match Port.GetRandomPorts e (portManager s) Count with
    | Panicked why => Panicked why
    | Returned a =>
      match Port.err a with
      | Some err =>
        Returned ({| Value := []; Error := Some (PortFailure err) |},
                  withManager s (Port.mgr a))
      | None =>
        Returned ({| Value := GoInt32.wrap <$> Port.value a; Error := None |},
                  withManager s (Port.mgr a))
      end
    end.

Definition GetAppPort (s : PortServer) (AppName : string) : Response Z :=
  match Storage.GetAppPort (storage s) AppName with
  | (_, Some err) => {| Value := 0; Error := Some (StorageFailure err) |}
  | (port, None) => {| Value := GoInt32.wrap port; Error := None |}
  end.

Definition SetAppPort (s : PortServer) (AppName : string) (Port : Z)
  : Response unit * PortServer :=
  let '(err, st) := Storage.SetAppPort (storage s) AppName Port in
  ({| Value := tt; Error := StorageFailure <$> err |}, withStorage s st).

Definition QuickSetAppPort (e : Port.Env) (s : PortServer) (AppName : string)
  : Run (Response Z * PortServer) :=
  if Storage.HasApp (storage s) AppName then
    match Storage.GetAppPort (storage s) AppName with
    | (_, Some err) =>
      Returned ({| Value := 0; Error := Some (StorageFailure err) |}, s)
    | (port, None) =>
      Returned ({| Value := GoInt32.wrap port; Error := None |}, s)
    end
  else
    match Port.GetRandomPort e (portManager s) with
    | Panicked why => Panicked why
    | Returned a =>
      let s1 := withManager s (Port.mgr a) in
      match Port.err a with
      | Some err =>
        Returned ({| Value := 0; Error := Some (PortFailure err) |}, s1)
      | None =>
        match Storage.SetAppPort (storage s1) AppName (Port.value a) with
        | (Some err, st) =>
          Returned ({| Value := 0; Error := Some (StorageFailure err) |},
                    withStorage s1 st)
        | (None, st) =>
          Returned ({| Value := GoInt32.wrap (Port.value a); Error := None |},
                    withStorage s1 st)
        end
      end
    end.

Definition DeleteAppPort (s : PortServer) (now : Z) (fs : Storage.FS)
    (AppName : string) : Response unit * PortServer * Storage.FS :=
  if decide (AppName = "") then
    ({| Value := tt; Error := Some (StorageFailure Storage.ErrEmptyName) |}, s, fs)
  else
    let s1 :=
      match Storage.GetAppPort (storage s) AppName with
      | (port, None) => withManager s (Port.ReleasePort (portManager s) port)
      | (_, Some _) => s
      end in
    let '(err, st, fs') := Storage.DeleteAppPort (storage s1) now fs AppName in
    ({| Value := tt; Error := StorageFailure <$> err |}, withStorage s1 st, fs').

Definition IsPortAvailable (s : PortServer) (os : Port.OS) (Port : Z)
  : Response bool * list Port.NetCall :=
  if (Port <=? 0) || (Port >? 65535) then
    ({| Value := false; Error := Some ErrPortNumber |}, [])
  else
    let '(available, calls) := Port.IsPortAvailable (portManager s) os Port in
    ({| Value := available; Error := None |}, calls).

End Server.

(** ** Shapes used by the properties *)

Module Shape.

(** The bounds are ints, in order, and the width of the range is an int. *)
Definition intRange (pm : Port.PortManager) : Prop :=
  GoInt.MinInt ≤ Port.minPort pm ∧ Port.minPort pm ≤ Port.maxPort pm ∧
  Port.maxPort pm ≤ GoInt.MaxInt ∧
  Port.maxPort pm - Port.minPort pm < GoInt.MaxInt.

(** Every entry of the map could have been written by SetAppPort. *)
Definition wellFormed (m : gmap string Z) : Prop :=
  ∀ k v, m !! k = Some v → k ≠ "" ∧ 1 ≤ v ≤ 65535.

Definition isLoad (ev : Storage.Event) : bool :=
  match ev with Storage.EvLoad _ => true | _ => false end.

(** The map a new registry holds after Load of the file that saveToFile
    wrote for the map [m]. *)
Definition reloaded (m : gmap string Z) : gmap string Z :=
  Storage.assign ∅ (Storage.encodeMap m).

(** The manager with every port of [ports] marked as used. *)
Definition marked (pm : Port.PortManager) (ports : list Z) : Port.PortManager :=
  foldl Port.markPortAsUsed pm ports.

(** [Picks e pm i n ports]: the draws [i], ..., [n-1] of a batch that starts
    on the manager [pm] pick the ports [ports], in this order. The candidate
    of a draw is picked when IsPortAvailable accepts it on the manager as it
    stands at that draw, the ports picked before being marked, and it is
    passed over when IsPortAvailable turns it down. *)
Inductive Picks (e : Port.Env) : Port.PortManager → nat → nat → list Z → Prop :=
| picks_done pm i : Picks e pm i i []
| picks_take pm i n q ports :
    Port.candidate e pm i = Returned q →
    (Port.IsPortAvailable pm (Port.os e i) q).1 = true →
    Picks e (Port.markPortAsUsed pm q) (S i) n ports →
    Picks e pm i n (q :: ports)
| picks_skip pm i n q ports :
    Port.candidate e pm i = Returned q →
    (Port.IsPortAvailable pm (Port.os e i) q).1 = false →
    Picks e pm (S i) n ports →
    Picks e pm i n ports.

End Shape.

(** * Properties *)

(** ** Go integers *)

Module GoIntFacts.
Import GoInt.

Lemma wrap_id z : MinInt ≤ z ≤ MaxInt → wrap z = z.
Proof.
  unfold wrap, MinInt, MaxInt. intros H.
  rewrite Z.mod_small; lia.
Qed.

Lemma wrap_range z : MinInt ≤ wrap z ≤ MaxInt.
Proof.
  unfold wrap, MinInt, MaxInt.
  pose proof (Z.mod_pos_bound (z + 2 ^ 63) (2 ^ 64) ltac:(lia)). lia.
Qed.

End GoIntFacts.

(** ** The allocator *)

Module PortFacts.
Import Port.

Lemma used_true pm port : used pm port = true ↔ usedPorts pm !! port = Some true.
Proof.
  unfold used. destruct (usedPorts pm !! port) as [[]|]; simpl; split; congruence.
Qed.

Lemma checkPortBySocket_true os port :
  (checkPortBySocket os port).1 = true ↔
  tcpListen os port = true ∧ resolveUDPAddr os port = true ∧ listenUDP os port = true.
Proof.
  unfold checkPortBySocket.
  destruct (tcpListen os port), (resolveUDPAddr os port), (listenUDP os port);
    simpl; intuition congruence.
Qed.

Lemma IsPortAvailable_true pm os port :
  (IsPortAvailable pm os port).1 = true ↔
  minPort pm ≤ port ≤ maxPort pm ∧ used pm port = false ∧
  (checkPortBySocket os port).1 = true.
Proof.
  unfold IsPortAvailable.
  destruct (port <? minPort pm) eqn:Hlo; simpl.
  { apply Z.ltb_lt in Hlo. split; [discriminate | lia]. }
  apply Z.ltb_ge in Hlo.
  destruct (port >? maxPort pm) eqn:Hhi; simpl.
  { rewrite Z.gtb_ltb in Hhi. apply Z.ltb_lt in Hhi. split; [discriminate | lia]. }
  rewrite Z.gtb_ltb in Hhi. apply Z.ltb_ge in Hhi.
  destruct (used pm port); simpl.
  - split; [discriminate | intros (_ & ? & _); discriminate].
  - intuition lia.
Qed.

Lemma IsPortAvailable_used pm os port :
  used pm port = true → IsPortAvailable pm os port = (false, []).
Proof.
  intros Hu. unfold IsPortAvailable. rewrite Hu.
  by destruct (_ || _).
Qed.

(** C3: IsPortAvailable answers false with no call into the network stack
    for a port outside [minPort, maxPort] and for a reserved port; for any
    other port it is the socket probe, which answers true exactly when the
    TCP listen and the UDP bind (address resolution and listen) both succeed,
    the TCP listener being closed before the UDP bind and the UDP socket
    right after it. *)
Theorem IsPortAvailable_fails_closed (pm : PortManager) (os : OS) (port : Z) :
  (port < minPort pm ∨ maxPort pm < port →
     IsPortAvailable pm os port = (false, [])) ∧
  (usedPorts pm !! port = Some true →
     IsPortAvailable pm os port = (false, [])) ∧
  (minPort pm ≤ port ≤ maxPort pm → usedPorts pm !! port ≠ Some true →
     IsPortAvailable pm os port = checkPortBySocket os port ∧
     ((IsPortAvailable pm os port).1 = true ↔
        tcpListen os port = true ∧
        (resolveUDPAddr os port && listenUDP os port) = true) ∧
     ((IsPortAvailable pm os port).1 = true →
        (IsPortAvailable pm os port).2 =
          [ListenTCP port; CloseTCP port; ResolveUDP port; ListenUDP port;
           CloseUDP port]) ∧
     (tcpListen os port = false →
        (IsPortAvailable pm os port).2 = [ListenTCP port])).
Proof.
  split; [| split].
  - intros Hout. unfold IsPortAvailable.
    destruct (port <? minPort pm) eqn:Hlo; [done |].
    destruct (port >? maxPort pm) eqn:Hhi; [done |].
    apply Z.ltb_ge in Hlo. rewrite Z.gtb_ltb in Hhi. apply Z.ltb_ge in Hhi. lia.
  - intros Hres. apply IsPortAvailable_used. by apply used_true.
  - intros Hin Hfree.
    assert (Hu : used pm port = false).
    { destruct (used pm port) eqn:Hu; [| done]. by apply used_true in Hu. }
    assert (Heq : IsPortAvailable pm os port = checkPortBySocket os port).
    { unfold IsPortAvailable. rewrite Hu.
      destruct (port <? minPort pm) eqn:Hlo; [apply Z.ltb_lt in Hlo; lia |].
      destruct (port >? maxPort pm) eqn:Hhi; [| done].
      rewrite Z.gtb_ltb in Hhi. apply Z.ltb_lt in Hhi. lia. }
    rewrite Heq. split; [done |]. unfold checkPortBySocket.
    destruct (tcpListen os port), (resolveUDPAddr os port), (listenUDP os port);
      simpl; intuition congruence.
Qed.

(** C8: SetPortRange returns the invalid-range error and leaves the manager
    exactly as it was when a bound is not positive or minPort > maxPort; for
    any other arguments it returns no error and the range is the new one,
    the reservations being kept. *)
Theorem SetPortRange_spec (pm : PortManager) (lo hi : Z) :
  (lo ≤ 0 ∨ hi ≤ 0 ∨ lo > hi →
     SetPortRange pm lo hi = (Some (ErrInvalidRange lo hi), pm)) ∧
  (0 < lo → 0 < hi → lo ≤ hi →
     (SetPortRange pm lo hi).1 = None ∧
     GetPortRange (SetPortRange pm lo hi).2 = (lo, hi) ∧
     usedPorts (SetPortRange pm lo hi).2 = usedPorts pm).
Proof.
  unfold SetPortRange. split.
  - intros Hbad.
    destruct (lo <=? 0) eqn:H1; [done |].
    destruct (hi <=? 0) eqn:H2; [done |].
    destruct (lo >? hi) eqn:H3; [done |].
    apply Z.leb_gt in H1, H2. rewrite Z.gtb_ltb in H3. apply Z.ltb_ge in H3. lia.
  - intros Hlo Hhi Hle.
    destruct (lo <=? 0) eqn:H1; [apply Z.leb_le in H1; lia |].
    destruct (hi <=? 0) eqn:H2; [apply Z.leb_le in H2; lia |].
    destruct (lo >? hi) eqn:H3;
      [rewrite Z.gtb_ltb in H3; apply Z.ltb_lt in H3; lia |].
    done.
Qed.

(** *** Random candidates *)

Lemma candidate_total e pm i :
  0 < span pm → ∃ q, candidate e pm i = Returned q.
Proof.
  intros Hs. unfold candidate, Intn.
  destruct (span pm <=? 0) eqn:H; [apply Z.leb_le in H; lia | eauto].
Qed.

Lemma candidate_panicked e pm i :
  span pm ≤ 0 → candidate e pm i = Panicked PanicIntn.
Proof.
  intros Hs. unfold candidate, Intn.
  destruct (span pm <=? 0) eqn:H; [done | apply Z.leb_gt in H; lia].
Qed.

Lemma candidate_cases e pm i :
  (0 < span pm ∧ ∃ q, candidate e pm i = Returned q) ∨
  (span pm ≤ 0 ∧ candidate e pm i = Panicked PanicIntn).
Proof.
  destruct (Z_lt_le_dec 0 (span pm)) as [H|H].
  - left. split; [done | by apply candidate_total].
  - right. split; [done | by apply candidate_panicked].
Qed.

(** *** Reservations are only ever added by an allocation *)

Lemma markPortAsUsed_used pm p : used (markPortAsUsed pm p) p = true.
Proof. unfold used, markPortAsUsed; simpl. by rewrite lookup_insert_eq. Qed.

Lemma markPortAsUsed_keeps pm p q :
  used pm q = true → used (markPortAsUsed pm p) q = true.
Proof.
  unfold used, markPortAsUsed; simpl. intros H.
  destruct (decide (p = q)) as [->|Hne].
  - by rewrite lookup_insert_eq.
  - by rewrite lookup_insert_ne.
Qed.

Lemma ReleasePort_keeps pm p q :
  p ≠ q → used pm q = true → used (ReleasePort pm p) q = true.
Proof.
  unfold used, ReleasePort; simpl. intros Hne H. by rewrite lookup_delete_ne.
Qed.

Lemma ReleasePort_frees pm p : used (ReleasePort pm p) p = false.
Proof. unfold used, ReleasePort; simpl. by rewrite lookup_delete_eq. Qed.

(** *** The loop of GetRandomPort *)

Lemma GetRandomPort_loop_returned e pm left : ∀ i cs a,
  GetRandomPort_loop e pm left i cs = Returned a →
  match err a with
  | None =>
    ∃ j, (i ≤ j < i + left)%nat ∧ draws a = S j ∧
         candidate e pm j = Returned (value a) ∧
         (IsPortAvailable pm (os e j) (value a)).1 = true ∧
         mgr a = markPortAsUsed pm (value a) ∧
         ∀ k, (i ≤ k < j)%nat → rejected e pm k
  | Some er =>
    er = ErrNoAvailablePort ∧ value a = 0 ∧ mgr a = pm ∧
    draws a = (i + left)%nat ∧ ∀ k, (i ≤ k < i + left)%nat → rejected e pm k
  end.
Proof.
  induction left as [|left IH]; intros i cs a; simpl.
  - intros [= <-]; simpl. repeat split; [lia | intros k Hk; lia].
  - destruct (candidate e pm i) as [port|why] eqn:Hc; [| discriminate].
    destruct (IsPortAvailable pm (os e i) port) as [ok cs'] eqn:Hav.
    destruct ok.
    + intros [= <-]; simpl. exists i. rewrite Hav. repeat split; try done; lia.
    + intros Hrec. specialize (IH _ _ _ Hrec).
      assert (Hrej : rejected e pm i).
      { exists port. by rewrite Hav. }
      destruct (err a).
      * destruct IH as (-> & Hv & Hm & Hd & Hall). repeat split; try done; [lia |].
        intros k Hk. destruct (decide (k = i)) as [->|]; [done | apply Hall; lia].
      * destruct IH as (j & Hj & Hd & Hcj & Havj & Hm & Hall).
        exists j. repeat split; try done; [lia | lia |].
        intros k Hk. destruct (decide (k = i)) as [->|]; [done | apply Hall; lia].
Qed.

Lemma GetRandomPort_loop_total e pm left : ∀ i cs,
  0 < span pm → ∃ a, GetRandomPort_loop e pm left i cs = Returned a.
Proof.
  induction left as [|left IH]; intros i cs Hs; simpl; [eauto |].
  destruct (candidate_total e pm i Hs) as [port ->].
  destruct (IsPortAvailable pm (os e i) port) as [[] cs']; eauto.
Qed.

Lemma GetRandomPort_loop_exhausted e pm left : ∀ i cs,
  (∀ k, (i ≤ k < i + left)%nat → rejected e pm k) →
  ∃ cs', GetRandomPort_loop e pm left i cs =
         Returned {| value := 0; err := Some ErrNoAvailablePort; mgr := pm;
                     draws := (i + left)%nat; netcalls := cs' |}.
Proof.
  induction left as [|left IH]; intros i cs Hall; simpl.
  - exists cs. by rewrite Nat.add_0_r.
  - destruct (Hall i ltac:(lia)) as (q & -> & Hq).
    destruct (IsPortAvailable pm (os e i) q) as [ok cs'] eqn:Hav.
    simpl in Hq; subst ok.
    destruct (IH (S i) (cs ++ cs')) as [cs'' ->].
    { intros k Hk. apply Hall. lia. }
    exists cs''. do 2 f_equal. lia.
Qed.

Lemma GetRandomPort_loop_panics e pm left i cs :
  span pm ≤ 0 → GetRandomPort_loop e pm (S left) i cs = Panicked PanicIntn.
Proof.
  intros Hs. cbn [GetRandomPort_loop]. by rewrite candidate_panicked.
Qed.

Lemma GetRandomPort_keeps e pm a q :
  GetRandomPort e pm = Returned a → used pm q = true → used (mgr a) q = true.
Proof.
  intros Hr Hu. apply GetRandomPort_loop_returned in Hr.
  destruct (err a).
  - by destruct Hr as (_ & _ & -> & _).
  - destruct Hr as (j & _ & _ & _ & _ & -> & _). by apply markPortAsUsed_keeps.
Qed.

(** *** The loop of GetRandomPorts *)

Lemma alreadyExists_false ports port :
  alreadyExists ports port = false ↔ port ∉ ports.
Proof.
  induction ports as [|p ports IH]; simpl.
  - split; [intros _; apply not_elem_of_nil | done].
  - destruct (p =? port) eqn:Hp.
    + apply Z.eqb_eq in Hp as ->. split; [done | intros Hn; exfalso; apply Hn; left].
    + apply Z.eqb_neq in Hp. rewrite IH, not_elem_of_cons.
      split; [intros ?; split; [congruence | done] | by intros [_ ?]].
Qed.

Lemma GetRandomPorts_loop_returned e count pm0 left : ∀ pm i ports cs r,
  batch pm0 pm count ports → Z.of_nat (length ports) ≤ count →
  GetRandomPorts_loop e count pm left i ports cs = Returned r →
  let '(pm', n, ports', _) := r in
  batch pm0 pm' count ports' ∧ Z.of_nat (length ports') ≤ count ∧
  (i ≤ n ≤ i + left)%nat ∧
  (Z.of_nat (length ports') < count → n = (i + left)%nat).
Proof.
  induction left as [|left IH]; intros pm i ports cs r Hb Hlen; simpl.
  - intros [= <-]. split_and!; try done; lia.
  - destruct (Z.of_nat (length ports) <? count) eqn:Hlt.
    2:{ intros [= <-]. apply Z.ltb_ge in Hlt. split_and!; try done; lia. }
    apply Z.ltb_lt in Hlt.
    destruct (candidate e pm i) as [port|why]; [| discriminate].
    destruct (IsPortAvailable pm (os e i) port) as [ok cs'] eqn:Hav.
    destruct (ok && negb (alreadyExists ports port)) eqn:Hok.
    + apply andb_true_iff in Hok as [-> Hnew].
      apply negb_true_iff, alreadyExists_false in Hnew.
      assert (Havail : (IsPortAvailable pm (os e i) port).1 = true) by by rewrite Hav.
      apply IsPortAvailable_true in Havail as (Hin & _ & _).
      destruct Hb as [Hnd Hrg Hus Hkp [Hmin Hmax]].
      intros Hrec. apply IH in Hrec.
      * destruct r as [[[pm' n] ports'] cs'']. destruct Hrec as (? & ? & ? & Hn).
        split_and!; first [done | lia | intros; rewrite Hn; lia].
      * split; simpl.
        -- apply NoDup_app. repeat split; [done | | apply NoDup_singleton].
           intros x Hx Hx'. apply list_elem_of_singleton in Hx' as ->. done.
        -- intros p [Hp | Hp%list_elem_of_singleton]%elem_of_app;
             [by apply Hrg | subst; lia].
        -- intros p [Hp | Hp%list_elem_of_singleton]%elem_of_app.
           ++ by apply markPortAsUsed_keeps, Hus.
           ++ subst. apply markPortAsUsed_used.
        -- intros q Hq. by apply markPortAsUsed_keeps, Hkp.
        -- done.
      * rewrite length_app; simpl. lia.
    + intros Hrec. apply IH in Hrec; [| done | done].
      destruct r as [[[pm' n] ports'] cs'']. destruct Hrec as (? & ? & ? & Hn).
      split_and!; first [done | lia | intros; rewrite Hn; lia].
Qed.

Lemma GetRandomPorts_loop_total e count left : ∀ pm i ports cs,
  0 < span pm → ∃ r, GetRandomPorts_loop e count pm left i ports cs = Returned r.
Proof.
  induction left as [|left IH]; intros pm i ports cs Hs; simpl; [eauto |].
  destruct (_ <? count); [| eauto].
  destruct (candidate_total e pm i Hs) as [port ->].
  destruct (IsPortAvailable pm (os e i) port) as [ok cs'].
  destruct (ok && _); apply IH; done.
Qed.

Lemma GetRandomPorts_loop_panics e count left : ∀ pm i ports cs,
  span pm ≤ 0 → Z.of_nat (length ports) < count →
  GetRandomPorts_loop e count pm (S left) i ports cs = Panicked PanicIntn.
Proof.
  intros pm i ports cs Hs Hlt; simpl.
  apply Z.ltb_lt in Hlt as ->. by rewrite candidate_panicked.
Qed.

Lemma batch_start pm count : batch pm pm count [].
Proof.
  split; try done; [apply NoDup_nil_2 | |]; intros p Hp; by apply elem_of_nil in Hp.
Qed.

Lemma mul100 count :
  0 < count ≤ maxSliceCap → GoInt.mul count 100 = count * 100.
Proof.
  unfold maxSliceCap. intros H. apply GoIntFacts.wrap_id.
  unfold GoInt.MinInt, GoInt.MaxInt. lia.
Qed.

Lemma GetRandomPorts_returned e pm count a :
  GetRandomPorts e pm count = Returned a → 0 < count →
  batch pm (mgr a) count (value a) ∧
  Z.of_nat (length (value a)) ≤ count ∧
  Z.of_nat (draws a) ≤ count * 100 ∧
  (Z.of_nat (length (value a)) < count →
     err a = Some (ErrPartial (Z.of_nat (length (value a))) count) ∧
     Z.of_nat (draws a) = count * 100) ∧
  (Z.of_nat (length (value a)) = count → err a = None).
Proof.
  unfold GetRandomPorts. intros Hr Hpos.
  destruct (count <=? 0) eqn:H0; [apply Z.leb_le in H0; lia |].
  destruct (count >? maxSliceCap) eqn:Hcap; [discriminate |].
  rewrite Z.gtb_ltb in Hcap. apply Z.ltb_ge in Hcap.
  rewrite mul100 in Hr by lia.
  destruct (GetRandomPorts_loop _ _ _ _ _ _ _) as [r|] eqn:Hloop; [| discriminate].
  apply (GetRandomPorts_loop_returned e count pm) in Hloop;
    [| apply batch_start | simpl; lia].
  destruct r as [[[pm' n] ports] cs]. destruct Hloop as (Hb & Hlen & Hn & Hfull).
  destruct (Z.of_nat (length ports) <? count) eqn:Hlt; injection Hr as <-; simpl.
  - apply Z.ltb_lt in Hlt. split_and!; try done; try lia.
    intros _. split; [done | rewrite Hfull by done; lia].
  - apply Z.ltb_ge in Hlt. split_and!; try done; lia.
Qed.

Lemma GetRandomPorts_keeps e pm count a q :
  GetRandomPorts e pm count = Returned a → used pm q = true →
  used (mgr a) q = true.
Proof.
  intros Hr Hu. destruct (Z_lt_le_dec 0 count) as [Hpos|Hneg].
  - apply GetRandomPorts_returned in Hr as ([] & _); auto.
  - unfold GetRandomPorts in Hr. apply Z.leb_le in Hneg. rewrite Hneg in Hr.
    by injection Hr as <-.
Qed.

(** *** A reserved port stays reserved until it is released *)

Lemma call_keeps pm c pm' p :
  c ≠ CallReleasePort p → call pm c = Returned pm' →
  used pm p = true → used pm' p = true.
Proof.
  intros Hc Hcall Hu. destruct c; simpl in Hcall.
  - by injection Hcall as <-.
  - destruct (GetRandomPort e pm) eqn:Hg; [| discriminate].
    injection Hcall as <-. by eapply GetRandomPort_keeps.
  - destruct (GetRandomPorts e pm count) eqn:Hg; [| discriminate].
    injection Hcall as <-. by eapply GetRandomPorts_keeps.
  - injection Hcall as <-. apply ReleasePort_keeps; [congruence | done].
  - injection Hcall as <-. unfold SetPortRange.
    by destruct (_ || _).
  - by injection Hcall as <-.
Qed.

Lemma calls_keep p cs : ∀ pm pm',
  CallReleasePort p ∉ cs → calls pm cs = Returned pm' →
  used pm p = true → used pm' p = true.
Proof.
  induction cs as [|c cs IH]; intros pm pm' Hno; simpl.
  - by intros [= <-].
  - apply not_elem_of_cons in Hno as [Hc Hno].
    destruct (call pm c) as [pm1|] eqn:Hcall; [| discriminate].
    intros Hrest Hu. eapply IH; [done | done |].
    eapply call_keeps; [| done | done]. congruence.
Qed.

(** *** The width of the range *)

Lemma span_forwards pm :
  minPort pm ≤ maxPort pm → maxPort pm - minPort pm < GoInt.MaxInt →
  span pm = maxPort pm - minPort pm + 1.
Proof.
  intros Hle Hfit. unfold span, GoInt.add, GoInt.sub.
  rewrite (GoIntFacts.wrap_id (maxPort pm - minPort pm));
    [apply GoIntFacts.wrap_id |]; unfold GoInt.MinInt, GoInt.MaxInt in *; lia.
Qed.

Lemma span_backwards pm :
  maxPort pm < minPort pm → GoInt.MinInt ≤ maxPort pm - minPort pm →
  span pm = maxPort pm - minPort pm + 1.
Proof.
  intros Hlt Hfit. unfold span, GoInt.add, GoInt.sub.
  rewrite (GoIntFacts.wrap_id (maxPort pm - minPort pm));
    [apply GoIntFacts.wrap_id |]; unfold GoInt.MinInt, GoInt.MaxInt in *; lia.
Qed.

(** C1: GetRandomPort draws at most 100 candidates. When it returns a port
    [p] without error, [p] lies in [minPort, maxPort], it is the candidate
    of the last draw and IsPortAvailable accepted it on the manager as it
    was, and the manager returned has [p] marked; from then on
    IsPortAvailable answers false for [p], whatever the network stack,
    through any calls on the manager that do not release [p], and releasing
    [p] hands the decision back to the socket probe. When all of the 100
    candidates are turned down it returns the error for no available port
    with port 0 and the manager unchanged, and this is the only error. On a
    range of positive width the call returns. *)
Theorem GetRandomPort_spec (e : Env) (pm : PortManager) :
  (0 < span pm → ∃ a, GetRandomPort e pm = Returned a) ∧
  ((∀ k, (k < 100)%nat → rejected e pm k) →
     ∃ a, GetRandomPort e pm = Returned a ∧
          err a = Some ErrNoAvailablePort ∧ value a = 0) ∧
  ∀ a, GetRandomPort e pm = Returned a →
    (draws a ≤ 100)%nat ∧
    match err a with
    | None =>
      minPort pm ≤ value a ≤ maxPort pm ∧
      (∃ j, draws a = S j ∧ candidate e pm j = Returned (value a) ∧
            (IsPortAvailable pm (os e j) (value a)).1 = true) ∧
      mgr a = markPortAsUsed pm (value a) ∧
      (∀ cs pm' o,
         CallReleasePort (value a) ∉ cs → calls (mgr a) cs = Returned pm' →
         IsPortAvailable pm' o (value a) = (false, [])) ∧
      (∀ o, IsPortAvailable (ReleasePort (mgr a) (value a)) o (value a) =
            checkPortBySocket o (value a))
    | Some er =>
      er = ErrNoAvailablePort ∧ value a = 0 ∧ mgr a = pm ∧
      draws a = 100%nat ∧ ∀ k, (k < 100)%nat → rejected e pm k
    end.
Proof.
  split; [| split].
  - intros Hs. by apply GetRandomPort_loop_total.
  - intros Hall. destruct (GetRandomPort_loop_exhausted e pm 100 0 []) as [cs Hr].
    { intros k Hk. apply Hall. lia. }
    eexists. split; [exact Hr | done].
  - intros a Hr. pose proof (GetRandomPort_loop_returned _ _ _ _ _ _ Hr) as Hl.
    destruct (err a) as [er|].
    + destruct Hl as (-> & Hv & Hm & Hd & Hall). split; [lia |].
      split_and!; try done. intros k Hk. apply Hall. lia.
    + destruct Hl as (j & Hj & Hd & Hc & Hav & Hm & _). split; [lia |].
      pose proof Hav as (Hin & _ & _)%IsPortAvailable_true.
      split; [lia |]. split; [by exists j |]. split; [done |]. split.
      * intros cs pm' o Hno Hcs. apply IsPortAvailable_used.
        eapply calls_keep; [done | done |]. rewrite Hm. apply markPortAsUsed_used.
      * intros o. unfold IsPortAvailable. rewrite ReleasePort_frees, Hm. simpl.
        destruct (value a <? minPort pm) eqn:Hlo; [apply Z.ltb_lt in Hlo; lia |].
        destruct (value a >? maxPort pm) eqn:Hhi; [| done].
        rewrite Z.gtb_ltb in Hhi. apply Z.ltb_lt in Hhi. lia.
Qed.

Lemma GetRandomPorts_total e pm count :
  0 < span pm → count ≤ maxSliceCap →
  ∃ a, GetRandomPorts e pm count = Returned a.
Proof.
  intros Hs Hcap. unfold GetRandomPorts.
  destruct (count <=? 0); [eauto |].
  destruct (count >? maxSliceCap) eqn:H1;
    [rewrite Z.gtb_ltb in H1; apply Z.ltb_lt in H1; lia |].
  destruct (GetRandomPorts_loop_total e count (Z.to_nat (GoInt.mul count 100))
              pm 0%nat [] [] Hs) as [[[[pm' n] ports] cs] ->].
  destruct (_ <? count); eauto.
Qed.

(** The batch loop picks what IsPortAvailable accepts. A candidate that is
    already in the batch is marked in the manager, so IsPortAvailable turns
    it down and the membership check never decides. *)
Lemma GetRandomPorts_loop_picks e count left : ∀ pm i ports cs pm' n ports' cs',
  (∀ p, p ∈ ports → used pm p = true) →
  GetRandomPorts_loop e count pm left i ports cs = Returned (pm', n, ports', cs') →
  ∃ new, ports' = ports ++ new ∧ pm' = Shape.marked pm new ∧
         Shape.Picks e pm i n new.
Proof.
  induction left as [|left IH]; intros pm i ports cs pm' n ports' cs' Hused;
    cbn [GetRandomPorts_loop].
  { intros [= <- <- <- <-]. exists []. rewrite app_nil_r.
    split_and!; [done | done | constructor]. }
  destruct (Z.of_nat (length ports) <? count).
  2:{ intros [= <- <- <- <-]. exists []. rewrite app_nil_r.
      split_and!; [done | done | constructor]. }
  destruct (candidate e pm i) as [port|why] eqn:Hc; [| discriminate].
  destruct (IsPortAvailable pm (os e i) port) as [ok cs1] eqn:Hav.
  destruct ok; simpl.
  - destruct (alreadyExists ports port) eqn:Hex; simpl.
    + exfalso.
      assert (port ∈ ports) as Hin.
      { destruct (decide (port ∈ ports)) as [|Hn]; [done |].
        apply alreadyExists_false in Hn. congruence. }
      assert ((IsPortAvailable pm (os e i) port).1 = true) as Hok by by rewrite Hav.
      apply IsPortAvailable_true in Hok as (_ & Hfree & _).
      rewrite (Hused _ Hin) in Hfree. discriminate.
    + intros Hr. apply IH in Hr as (new & -> & -> & HP).
      * exists (port :: new). split_and!.
        -- by rewrite <- app_assoc.
        -- done.
        -- eapply Shape.picks_take; [done | by rewrite Hav | done].
      * intros p [Hp | ->%list_elem_of_singleton]%elem_of_app.
        -- by apply markPortAsUsed_keeps, Hused.
        -- apply markPortAsUsed_used.
  - intros Hr. apply IH in Hr as (new & -> & -> & HP); [| done].
    exists new. split_and!; [done | done |].
    eapply Shape.picks_skip; [done | by rewrite Hav | done].
Qed.

Lemma GetRandomPorts_picks e pm count a :
  GetRandomPorts e pm count = Returned a → 0 < count →
  Shape.Picks e pm 0 (draws a) (value a) ∧ mgr a = Shape.marked pm (value a).
Proof.
  unfold GetRandomPorts. intros Hr Hpos.
  destruct (count <=? 0) eqn:H0; [apply Z.leb_le in H0; lia |].
  destruct (count >? maxSliceCap) eqn:Hcap; [discriminate |].
  destruct (GetRandomPorts_loop _ _ _ _ _ _ _) as [r|] eqn:Hloop; [| discriminate].
  destruct r as [[[pm' n] ports] cs].
  apply GetRandomPorts_loop_picks in Hloop as (new & Hnew & -> & HP).
  2:{ intros p Hp. by apply elem_of_nil in Hp. }
  simpl in Hnew. subst ports.
  by destruct (_ <? _); injection Hr as <-.
Qed.

Lemma Picks_le e pm i n ports : Shape.Picks e pm i n ports → (i ≤ n)%nat.
Proof. induction 1; lia. Qed.

(** The relation leaves no choice: the draws determine the ports picked. *)
Lemma Picks_functional e pm i n ports : Shape.Picks e pm i n ports →
  ∀ ports', Shape.Picks e pm i n ports' → ports' = ports.
Proof.
  induction 1 as [pm i | pm i n q ports Hc Hav HP IH | pm i n q ports Hc Hav HP IH];
    intros ports' HP'.
  - inversion HP' as [| ? ? ? ? ? _ _ Hrest | ? ? ? ? ? _ _ Hrest]; subst; [done | |];
      apply Picks_le in Hrest; lia.
  - inversion HP' as [| ? ? ? q' rest Hc' _ Hrest | ? ? ? q' ? Hc' Hav' _]; subst.
    + apply Picks_le in HP. lia.
    + assert (q' = q) as -> by congruence. f_equal. by apply IH.
    + assert (q' = q) as -> by congruence. congruence.
  - inversion HP' as [| ? ? ? q' rest Hc' Hav' _ | ? ? ? q' ? _ _ Hrest]; subst.
    + apply Picks_le in HP. lia.
    + assert (q' = q) as -> by congruence. congruence.
    + by apply IH.
Qed.

Lemma IsPortAvailable_before pm o q p :
  (IsPortAvailable (markPortAsUsed pm q) o p).1 = true →
  (IsPortAvailable pm o p).1 = true.
Proof.
  rewrite !IsPortAvailable_true. simpl. intros (Hr & Hu & Hs).
  split_and!; [lia | lia | | done].
  destruct (used pm p) eqn:H; [| done].
  by rewrite (markPortAsUsed_keeps pm q p H) in Hu.
Qed.

Lemma IsPortAvailable_after pm o q p :
  p ≠ q → (IsPortAvailable pm o p).1 = true →
  (IsPortAvailable (markPortAsUsed pm q) o p).1 = true.
Proof.
  rewrite !IsPortAvailable_true. simpl. intros Hne (Hr & Hu & Hs).
  split_and!; [lia | lia | | done].
  unfold used, markPortAsUsed in *; simpl. by rewrite lookup_insert_ne.
Qed.

(** Every port picked was the candidate of one of the draws, and available
    on the manager the batch started on. *)
Lemma Picks_sound e pm i n ports : Shape.Picks e pm i n ports →
  ∀ p, p ∈ ports →
    ∃ j, (i ≤ j < n)%nat ∧ candidate e pm j = Returned p ∧
         (IsPortAvailable pm (os e j) p).1 = true.
Proof.
  induction 1 as [pm i | pm i n q ports Hc Hav HP IH | pm i n q ports Hc Hav HP IH];
    intros p Hp.
  - by apply elem_of_nil in Hp.
  - apply Picks_le in HP. apply elem_of_cons in Hp as [-> | Hp].
    + exists i. split; [lia | done].
    + destruct (IH p Hp) as (j & Hj & Hcj & Havj).
      exists j. split_and!; [lia | lia | done | by eapply IsPortAvailable_before].
  - destruct (IH p Hp) as (j & Hj & Hcj & Havj).
    exists j. split_and!; [lia | lia | done | done].
Qed.

(** Every candidate of a draw that was available on the manager the batch
    started on is picked, at that draw or at an earlier one. *)
Lemma Picks_complete e pm i n ports : Shape.Picks e pm i n ports →
  ∀ j q, (i ≤ j < n)%nat → candidate e pm j = Returned q →
    (IsPortAvailable pm (os e j) q).1 = true → q ∈ ports.
Proof.
  induction 1 as [pm i | pm i n q0 ports Hc Hav HP IH | pm i n q0 ports Hc Hav HP IH];
    intros j q Hj Hcj Havj.
  - lia.
  - destruct (decide (q = q0)) as [-> | Hne]; [left |].
    right. destruct (decide (j = i)) as [-> | Hji]; [congruence |].
    apply (IH j q); [lia | done | by apply IsPortAvailable_after].
  - destruct (decide (j = i)) as [-> | Hji]; [congruence |].
    apply (IH j q); [lia | done | done].
Qed.

(** C4: GetRandomPorts with count >= 1 returns a sequence without
    duplicates, of at most count ports, after at most count*100 draws. When
    it holds fewer than count ports the whole budget of count*100 draws was
    spent and the error carries the number found and the number asked for;
    when it holds count ports there is no error. Every port returned lies in
    the range and is marked in the manager returned. The sequence returned,
    partial or full, is the one the draws found: it holds, in the order of
    the draws, the candidates IsPortAvailable accepted on the manager as it
    stood at their draw and no others ([Shape.Picks], which no other
    sequence satisfies), and the manager returned is the one given with
    these ports marked. In terms of the manager given: every port returned
    was the candidate of one of the draws made and available then, and every
    candidate of a draw made that was available is returned. On a range of
    positive width and for a count the slice can hold, the call returns. *)
Theorem GetRandomPorts_spec (e : Env) (pm : PortManager) (count : Z) :
  1 ≤ count →
  (0 < span pm → count ≤ maxSliceCap →
     ∃ a, GetRandomPorts e pm count = Returned a) ∧
  ∀ a, GetRandomPorts e pm count = Returned a →
    NoDup (value a) ∧
    Z.of_nat (draws a) ≤ count * 100 ∧
    Z.of_nat (length (value a)) ≤ count ∧
    (Z.of_nat (length (value a)) < count →
       err a = Some (ErrPartial (Z.of_nat (length (value a))) count) ∧
       Z.of_nat (draws a) = count * 100) ∧
    (Z.of_nat (length (value a)) = count → err a = None) ∧
    (∀ p, p ∈ value a → minPort pm ≤ p ≤ maxPort pm ∧ used (mgr a) p = true) ∧
    Shape.Picks e pm 0 (draws a) (value a) ∧
    (∀ ports, Shape.Picks e pm 0 (draws a) ports → ports = value a) ∧
    mgr a = Shape.marked pm (value a) ∧
    (∀ p, p ∈ value a →
       ∃ j, (j < draws a)%nat ∧ candidate e pm j = Returned p ∧
            (IsPortAvailable pm (os e j) p).1 = true) ∧
    (∀ j q, (j < draws a)%nat → candidate e pm j = Returned q →
       (IsPortAvailable pm (os e j) q).1 = true → q ∈ value a).
Proof.
  intros Hcount. split.
  - intros Hs Hcap. by apply GetRandomPorts_total.
  - intros a Hr.
    destruct (GetRandomPorts_returned _ _ _ _ Hr) as ([] & ? & ? & ? & ?); [lia |].
    destruct (GetRandomPorts_picks _ _ _ _ Hr) as (HP & Hmgr); [lia |].
    split_and!; auto.
    + by apply Picks_functional.
    + intros p Hp. destruct (Picks_sound _ _ _ _ _ HP p Hp) as (j & Hj & ?).
      exists j. split; [lia | done].
    + intros j q Hj. apply (Picks_complete _ _ _ _ _ HP). lia.
Qed.

(** C10, amended: NewPortManager takes any two bounds. On a manager with
    minPort <= maxPort whose width maxPort - minPort + 1 is an int (as for
    every range with minPort >= 1), GetRandomPort never panics and
    GetRandomPorts never panics for a count within the capacity limit of a
    slice. On a manager with maxPort < minPort (the difference being an
    int), GetRandomPort panics in rand.Intn, GetRandomPorts panics for every
    count >= 1, and for a count <= 0 it returns the error for a count that
    is not positive, before any draw. *)
Theorem allocation_totality (e : Env) (pm : PortManager) :
  (∀ lo hi, minPort (NewPortManager lo hi) = lo ∧
            maxPort (NewPortManager lo hi) = hi) ∧
  (minPort pm ≤ maxPort pm → maxPort pm - minPort pm < GoInt.MaxInt →
     ¬ panics (GetRandomPort e pm) ∧
     ∀ count, count ≤ maxSliceCap → ¬ panics (GetRandomPorts e pm count)) ∧
  (maxPort pm < minPort pm → GoInt.MinInt ≤ maxPort pm - minPort pm →
     GetRandomPort e pm = Panicked PanicIntn ∧
     (∀ count, 1 ≤ count → panics (GetRandomPorts e pm count)) ∧
     (∀ count, count ≤ 0 →
        GetRandomPorts e pm count =
        Returned {| value := []; err := Some ErrCountNotPositive; mgr := pm;
                    draws := O; netcalls := [] |})).
Proof.
  split; [done |]. split.
  - intros Hle Hfit. pose proof (span_forwards pm Hle Hfit) as Hs.
    assert (Hpos : 0 < span pm) by lia. split.
    + destruct (GetRandomPort_loop_total e pm 100 0%nat [] Hpos) as [a Ha].
      intros [why Hp]. unfold GetRandomPort in Hp. congruence.
    + intros count Hcap [why Hp].
      destruct (GetRandomPorts_total e pm count Hpos Hcap) as [a Ha]. congruence.
  - intros Hlt Hfit. pose proof (span_backwards pm Hlt Hfit) as Hs.
    assert (Hneg : span pm ≤ 0) by lia. split_and!.
    + by apply GetRandomPort_loop_panics.
    + intros count Hc. unfold GetRandomPorts, panics.
      destruct (count <=? 0) eqn:H0; [apply Z.leb_le in H0; lia |].
      destruct (count >? maxSliceCap) eqn:H1; [eauto |].
      rewrite Z.gtb_ltb in H1. apply Z.ltb_ge in H1.
      rewrite mul100 by lia.
      destruct (Z.to_nat (count * 100)) as [|left] eqn:Hn; [lia |].
      rewrite GetRandomPorts_loop_panics; [eauto | done | simpl; lia].
    + intros count Hc. unfold GetRandomPorts. apply Z.leb_le in Hc. by rewrite Hc.
Qed.

(** C10 as stated fails in both directions. With minPort <= maxPort: the
    width of the range [0, MaxInt] overflows to a negative int, so
    GetRandomPort panics, and on the range [10000, 20000] GetRandomPorts
    panics for a count above the capacity limit of a slice. With
    maxPort < minPort: on the range [2, 1] GetRandomPorts(0) returns an
    error, and on the range [MaxInt, MinInt] the width overflows to 2, so
    GetRandomPort draws 100 candidates and returns the error for no
    available port. *)
Lemma allocation_totality_counterexample :
  (minPort (NewPortManager 0 GoInt.MaxInt) ≤ maxPort (NewPortManager 0 GoInt.MaxInt) ∧
   GetRandomPort (still 0 allFree) (NewPortManager 0 GoInt.MaxInt) =
   Panicked PanicIntn) ∧
  (minPort (NewPortManager 10000 20000) ≤ maxPort (NewPortManager 10000 20000) ∧
   GetRandomPorts (still 0 allFree) (NewPortManager 10000 20000) (2 ^ 45 + 1) =
   Panicked PanicMakeslice) ∧
  (maxPort (NewPortManager 2 1) < minPort (NewPortManager 2 1) ∧
   ¬ panics (GetRandomPorts (still 0 allFree) (NewPortManager 2 1) 0)) ∧
  (maxPort (NewPortManager GoInt.MaxInt GoInt.MinInt) <
   minPort (NewPortManager GoInt.MaxInt GoInt.MinInt) ∧
   ¬ panics (GetRandomPort (still 0 allFree)
               (NewPortManager GoInt.MaxInt GoInt.MinInt))).
Proof.
  split_and!; try by vm_compute.
  - intros [why H]. vm_compute in H. discriminate H.
  - intros [why H]. vm_compute in H. discriminate H.
Qed.

(** *** The theorems at work *)

Lemma IsPortAvailable_fails_closed_witness :
  IsPortAvailable (NewPortManager 10000 10010) allFree 80 = (false, []) ∧
  IsPortAvailable (markPortAsUsed (NewPortManager 10000 10010) 10007) allFree
                  10007 = (false, []) ∧
  IsPortAvailable (NewPortManager 10000 10010) (onlyFree 10007) 10007 =
  checkPortBySocket (onlyFree 10007) 10007.
Proof.
  split; [| split].
  - apply (proj1 (IsPortAvailable_fails_closed _ _ _)). left. simpl. lia.
  - apply (proj1 (proj2 (IsPortAvailable_fails_closed _ _ _))). reflexivity.
  - apply (proj2 (proj2 (IsPortAvailable_fails_closed _ _ _))).
    + simpl. lia.
    + discriminate.
Defined.

Lemma SetPortRange_spec_witness :
  SetPortRange (NewPortManager 10000 20000) 0 100 =
  (Some (ErrInvalidRange 0 100), NewPortManager 10000 20000) ∧
  GetPortRange (SetPortRange (NewPortManager 10000 20000) 30000 40000).2 =
  (30000, 40000).
Proof.
  split.
  - apply (proj1 (SetPortRange_spec _ _ _)). left. lia.
  - apply (proj2 (SetPortRange_spec _ _ _)); lia.
Defined.

(** The scenario of the specification: on the range [10000, 10010] with
    only 10007 free, a first call returns 10007 and a second call finds no
    port. *)
Example GetRandomPort_scenario :
  ∃ a, GetRandomPort (counting (onlyFree 10007)) (NewPortManager 10000 10010) =
       Returned a ∧
       value a = 10007 ∧ err a = None ∧ draws a = 8%nat ∧
       ∃ b, GetRandomPort (counting (onlyFree 10007)) (mgr a) = Returned b ∧
            value b = 0 ∧ err b = Some ErrNoAvailablePort ∧ draws b = 100%nat.
Proof.
  eexists. split; [by vm_compute |]. split_and!; [done | done | done |].
  eexists. split; [by vm_compute |]. done.
Qed.

Lemma GetRandomPort_spec_witness :
  ∃ a, GetRandomPort (counting (onlyFree 10007)) (NewPortManager 10000 10010) =
       Returned a ∧ (draws a ≤ 100)%nat.
Proof.
  destruct (GetRandomPort_spec (counting (onlyFree 10007))
              (NewPortManager 10000 10010)) as (Htotal & _ & Hret).
  destruct Htotal as [a Ha]; [by vm_compute |].
  exists a. split; [done |]. by destruct (Hret a Ha).
Defined.

Example GetRandomPorts_scenario :
  ∃ a, GetRandomPorts (counting allFree) (NewPortManager 10000 10010) 3 =
       Returned a ∧
       value a = [10000; 10001; 10002] ∧ err a = None ∧ draws a = 3%nat.
Proof. eexists. split; [by vm_compute | done]. Qed.

Example GetRandomPorts_partial :
  ∃ a, GetRandomPorts (counting (onlyFree 10007)) (NewPortManager 10000 10010) 2 =
       Returned a ∧
       value a = [10007] ∧ err a = Some (ErrPartial 1 2) ∧ draws a = 200%nat.
Proof. eexists. split; [by vm_compute | done]. Qed.

Lemma GetRandomPorts_spec_witness :
  ∃ a, GetRandomPorts (counting (onlyFree 10007)) (NewPortManager 10000 10010) 2 =
       Returned a ∧ NoDup (value a) ∧ 10007 ∈ value a ∧
       err a = Some (ErrPartial (Z.of_nat (length (value a))) 2).
Proof.
  destruct (GetRandomPorts_spec (counting (onlyFree 10007))
              (NewPortManager 10000 10010) 2 ltac:(lia)) as (Htotal & Hret).
  destruct Htotal as [a Ha]; [by vm_compute | by vm_compute |].
  exists a. split; [done |].
  destruct (Hret a Ha)
    as (Hnd & _ & _ & Hshort & _ & _ & _ & _ & _ & _ & Hall).
  vm_compute in Ha. injection Ha as <-.
  split_and!; [done | | ].
  - apply (Hall 7%nat); [simpl; lia | by vm_compute | by vm_compute].
  - apply Hshort. simpl. lia.
Defined.

Lemma allocation_totality_witness :
  ¬ panics (GetRandomPort (counting allFree) (NewPortManager 10000 20000)) ∧
  GetRandomPort (counting allFree) (NewPortManager 2 1) = Panicked PanicIntn.
Proof.
  split.
  - apply (proj1 (proj2 (allocation_totality _ _))); by vm_compute.
  - apply (proj2 (proj2 (allocation_totality _ _))); by vm_compute.
Defined.

End PortFacts.

(** ** Two goroutines in GetRandomPort *)

Module InterleavingFacts.
Import Port Interleaving PortFacts.

(** The steps of a goroutine that runs alone are GetRandomPort. *)
Lemma solo_loop e pm left : ∀ i cs,
  (i + left = 100)%nat →
  ∃ n, solo e n pm (AtLoop i) =
       match GetRandomPort_loop e pm left i cs with
       | Returned a => (Done (value a) (err a), mgr a)
       | Panicked why => (Crashed why, pm)
       end.
Proof.
  induction left as [|left IH]; intros i cs Hi.
  - assert (i = 100%nat) as -> by lia. by exists 1%nat.
  - assert (Hlt : (100 <=? i)%nat = false) by (apply Nat.leb_gt; lia).
    cbn [GetRandomPort_loop].
    destruct (candidate e pm i) as [port|why] eqn:Hc.
    2:{ exists 1%nat. cbn [solo step]. by rewrite Hlt, Hc. }
    unfold IsPortAvailable.
    destruct ((port <? minPort pm) || (port >? maxPort pm)) eqn:Hout.
    { destruct (IH (S i) (cs ++ []) ltac:(lia)) as [n Hn].
      exists (S n). cbn [solo step]. by rewrite Hlt, Hc, Hout. }
    destruct (used pm port) eqn:Hu.
    { destruct (IH (S i) (cs ++ []) ltac:(lia)) as [n Hn].
      exists (S (S n)). cbn [solo step]. rewrite Hlt, Hc, Hout.
      cbn [solo step]. by rewrite Hu. }
    destruct (checkPortBySocket (os e i) port) as [ok cs'] eqn:Hp.
    destruct ok.
    + exists 4%nat. cbn [solo step]. rewrite Hlt, Hc, Hout.
      cbn [solo step]. rewrite Hu. cbn [solo step]. by rewrite Hp.
    + destruct (IH (S i) (cs ++ cs') ltac:(lia)) as [n Hn].
      exists (S (S (S n))). cbn [solo step]. rewrite Hlt, Hc, Hout.
      cbn [solo step]. rewrite Hu. cbn [solo step]. by rewrite Hp.
Qed.

Lemma solo_GetRandomPort e pm :
  ∃ n, solo e n pm (AtLoop 0) =
       match GetRandomPort e pm with
       | Returned a => (Done (value a) (err a), mgr a)
       | Panicked why => (Crashed why, pm)
       end.
Proof. by apply solo_loop. Qed.

(** One call after the other never gives the same port twice. *)
Lemma GetRandomPort_twice e1 e2 pm a b :
  GetRandomPort e1 pm = Returned a → err a = None →
  GetRandomPort e2 (mgr a) = Returned b → err b = None →
  value b ≠ value a.
Proof.
  intros Ha Hea Hb Heb Heq.
  apply GetRandomPort_loop_returned in Ha, Hb. rewrite Hea in Ha. rewrite Heb in Hb.
  destruct Ha as (_ & _ & _ & _ & _ & Hm & _).
  destruct Hb as (j & _ & _ & _ & Hav & _).
  apply IsPortAvailable_true in Hav as (_ & Hfree & _).
  rewrite Heq, Hm, markPortAsUsed_used in Hfree. discriminate.
Qed.

Lemma run_cons eA eB c who schedule :
  run eA eB c (who :: schedule) = run eA eB (sched1 eA eB c who) schedule.
Proof. reflexivity. Qed.

(** No critical section of a goroutine both reads and writes usedPorts. *)
Lemma step_read_xor_write e pm t p b q :
  ReadUsed p b ∈ (step e pm t).2 → WriteUsed q ∈ (step e pm t).2 → False.
Proof.
  destruct t; cbn [step].
  - destruct (100 <=? i)%nat; [by intros ?%elem_of_nil |].
    destruct (candidate e pm i); [| by intros ?%elem_of_nil].
    destruct (_ || _); by intros ?%elem_of_nil.
  - intros _ Hw. cbn [snd] in Hw.
    repeat (apply elem_of_cons in Hw as [Hw|Hw]; [discriminate |]).
    by apply elem_of_nil in Hw.
  - by intros ?%elem_of_nil.
  - intros Hr. cbn [snd] in Hr.
    repeat (apply elem_of_cons in Hr as [Hr|Hr]; [discriminate |]).
    by apply elem_of_nil in Hr.
  - by intros ?%elem_of_nil.
  - by intros ?%elem_of_nil.
Qed.

(** C2, as the code has it: the membership check of IsPortAvailable is made
    under RLock and the mark of markPortAsUsed under a later Lock, so when
    the first candidate [p] of two goroutines is the same port and
    IsPortAvailable accepts it, the schedule [race] lets both read [p] as
    not reserved before either marks it, and both calls return [p] without
    error. *)
Theorem GetRandomPort_race (eA eB : Env) (pm : PortManager) (p : Z) :
  candidate eA pm 0 = Returned p → candidate eB pm 0 = Returned p →
  (IsPortAvailable pm (os eA 0) p).1 = true →
  (IsPortAvailable pm (os eB 0) p).1 = true →
  let c := run eA eB (start pm) race in
  thA c = Done p None ∧ thB c = Done p None ∧
  accesses c =
    [(A, RLock); (A, ReadUsed p false); (A, RUnlock);
     (B, RLock); (B, ReadUsed p false); (B, RUnlock);
     (A, Lock); (A, WriteUsed p); (A, Unlock);
     (B, Lock); (B, WriteUsed p); (B, Unlock)].
Proof.
  intros HcA HcB HavA HavB.
  apply IsPortAvailable_true in HavA as (Hin & Hu & HpA).
  apply IsPortAvailable_true in HavB as (_ & _ & HpB).
  assert (Hrange : (p <? minPort pm) || (p >? maxPort pm) = false).
  { apply orb_false_iff. rewrite Z.gtb_ltb. split; apply Z.ltb_ge; lia. }
  assert (HdA : step eA pm (AtLoop 0) = (AtRLock 0 p, pm, [])).
  { cbn [step]. by rewrite HcA, Hrange. }
  assert (HdB : step eB pm (AtLoop 0) = (AtRLock 0 p, pm, [])).
  { cbn [step]. by rewrite HcB, Hrange. }
  assert (Hr : ∀ e, step e pm (AtRLock 0 p) =
                    (AtProbe 0 p, pm, [RLock; ReadUsed p false; RUnlock])).
  { intros e. cbn [step]. by rewrite Hu. }
  assert (HbA : step eA pm (AtProbe 0 p) = (AtLock 0 p, pm, [])).
  { cbn [step]. by rewrite HpA. }
  assert (HbB : step eB pm (AtProbe 0 p) = (AtLock 0 p, pm, [])).
  { cbn [step]. by rewrite HpB. }
  assert (Hrun : run eA eB (start pm) race =
    {| thA := Done p None; thB := Done p None;
       shared := markPortAsUsed (markPortAsUsed pm p) p;
       accesses := [(A, RLock); (A, ReadUsed p false); (A, RUnlock);
                    (B, RLock); (B, ReadUsed p false); (B, RUnlock);
                    (A, Lock); (A, WriteUsed p); (A, Unlock);
                    (B, Lock); (B, WriteUsed p); (B, Unlock)] |}).
  { unfold race, start.
    rewrite run_cons. unfold sched1 at 1. cbn -[step run sched1]. rewrite HdA.
    rewrite run_cons. unfold sched1 at 1. cbn -[step run sched1]. rewrite Hr.
    rewrite run_cons. unfold sched1 at 1. cbn -[step run sched1]. rewrite HbA.
    rewrite run_cons. unfold sched1 at 1. cbn -[step run sched1]. rewrite HdB.
    rewrite run_cons. unfold sched1 at 1. cbn -[step run sched1]. rewrite Hr.
    rewrite run_cons. unfold sched1 at 1. cbn -[step run sched1]. rewrite HbB.
    rewrite run_cons. unfold sched1 at 1. cbn -[run sched1 markPortAsUsed].
    rewrite run_cons. unfold sched1 at 1. cbn -[run sched1 markPortAsUsed].
    reflexivity. }
  cbv zeta. by rewrite Hrun.
Qed.

(** The race on the range [10000, 10010] with every port free, both
    goroutines drawing 10007 first. *)
Lemma GetRandomPort_race_witness :
  let c := run (still 7 allFree) (still 7 allFree)
               (start (NewPortManager 10000 10010)) race in
  thA c = Done 10007 None ∧ thB c = Done 10007 None.
Proof.
  pose proof (GetRandomPort_race (still 7 allFree) (still 7 allFree)
                (NewPortManager 10000 10010) 10007
                ltac:(by vm_compute) ltac:(by vm_compute)
                ltac:(by vm_compute) ltac:(by vm_compute)) as (HA & HB & _).
  split; [exact HA | exact HB].
Defined.

End InterleavingFacts.

(** ** Strings through encoding/json *)

Module UTF8Facts.
Import UTF8.

Lemma toValidUTF8_valid_len n : ∀ s,
  (String.length s ≤ n)%nat → ValidString s = true → toValidUTF8 s = s.
Proof.
  induction n as [|n IH]; intros s Hlen.
  { destruct s; [done | simpl in Hlen; lia]. }
  destruct s as [|c0 s0]; [done |]. simpl in Hlen.
  cbn [toValidUTF8 ValidString].
  destruct (byte c0 <? 128)%N.
  { intros Hv. f_equal. apply IH; [lia | done]. }
  destruct s0 as [|c1 s1]; [done |]. simpl in Hlen.
  destruct (seq2 c0 c1).
  { intros Hv. do 2 f_equal. apply IH; [lia | done]. }
  destruct s1 as [|c2 s2]; [done |]. simpl in Hlen.
  destruct (seq3 c0 c1 c2).
  { intros Hv. do 3 f_equal. apply IH; [lia | done]. }
  destruct s2 as [|c3 s3]; [done |]. simpl in Hlen.
  destruct (seq4 c0 c1 c2 c3); [| done].
  intros Hv. do 4 f_equal. apply IH; [lia | done].
Qed.

Lemma toValidUTF8_valid s : ValidString s = true → toValidUTF8 s = s.
Proof. by apply (toValidUTF8_valid_len (String.length s)). Qed.

(** The byte FF alone is not UTF-8: it comes back as U+FFFD. *)
Example toValidUTF8_FF :
  toValidUTF8 (String (Ascii.ascii_of_N 255) EmptyString) = RuneError.
Proof. reflexivity. Qed.

Example toValidUTF8_svc : toValidUTF8 "svc" = "svc".
Proof. reflexivity. Qed.

End UTF8Facts.

(** ** The registry *)

Module StorageFacts.
Import Storage.

(** *** Maps through the snapshot and through encoding/json *)

Lemma copy_map (m : gmap string Z) :
  map_fold (λ k v r, <[k := v]> r) ∅ m = m.
Proof.
  apply (map_fold_weak_ind (λ r m, r = m)); [done |].
  intros k v m' r _ ->. done.
Qed.

Lemma snapshot_eq s now :
  snapshot s now =
  {| AppPorts := Some (appPorts s); Timestamp := now; Version := "1.0" |}.
Proof. unfold snapshot. by rewrite copy_map. Qed.

Lemma assign_nodup (l : list (string * Z)) : ∀ m,
  NoDup l.*1 → assign m l = list_to_map l ∪ m.
Proof.
  unfold assign. induction l as [|[k v] l IH]; intros m Hnd; simpl.
  - by rewrite (left_id_L ∅ (∪)).
  - apply NoDup_cons in Hnd as [Hk Hnd]. rewrite IH by done.
    rewrite <- insert_union_l.
    by rewrite insert_union_r by by apply not_elem_of_list_to_map_1.
Qed.

Lemma fmap_fixed {A} (f : A → A) (l : list A) :
  (∀ x, x ∈ l → f x = x) → f <$> l = l.
Proof.
  induction l as [|x l IH]; intros Hf; simpl; [done |].
  rewrite Hf by left. f_equal. apply IH. intros y Hy. apply Hf. by right.
Qed.

Lemma encodeMap_valid m :
  validNames m → encodeMap m = merge_sort keyLe (map_to_list m).
Proof.
  intros Hv. unfold encodeMap. apply fmap_fixed. intros [k v] Hkv.
  rewrite merge_sort_Permutation in Hkv. apply elem_of_map_to_list in Hkv.
  simpl. f_equal. apply UTF8Facts.toValidUTF8_valid, Hv. by exists v.
Qed.

(** A map whose names are valid UTF-8 is read back as it was written. *)
Lemma assign_encodeMap m : validNames m → assign ∅ (encodeMap m) = m.
Proof.
  intros Hv. rewrite encodeMap_valid by done.
  assert (Hperm : merge_sort keyLe (map_to_list m) ≡ₚ map_to_list m)
    by apply merge_sort_Permutation.
  assert (Hnd : NoDup (merge_sort keyLe (map_to_list m)).*1).
  { rewrite Hperm. apply NoDup_fst_map_to_list. }
  rewrite assign_nodup by done. rewrite (right_id_L ∅ (∪)).
  rewrite (list_to_map_proper _ _ Hnd Hperm). apply list_to_map_to_list.
Qed.

Lemma encodeMap_empty : encodeMap ∅ = [].
Proof. reflexivity. Qed.

(** What Unmarshal reads from the file that saveToFile writes. *)
Lemma Unmarshal_snapshot s now :
  ∃ data, json_MarshalIndent (snapshot s now) = Some data ∧ data ≠ Empty ∧
          data = JSONObject [MAppPorts (Some (encodeMap (appPorts s)));
                             MTimestamp (Some now); MVersion (Some "1.0")] ∧
          json_Unmarshal data =
          Some {| AppPorts := Some (assign ∅ (encodeMap (appPorts s)));
                  Timestamp := now; Version := "1.0" |}.
Proof.
  rewrite snapshot_eq. eexists. split; [reflexivity |]. done.
Qed.

Lemma saveToFile_healthy s now fs :
  healthy fs (dataFile s) →
  saveToFile s now fs =
  (None, withFile fs (dataFile s)
           (JSONObject [MAppPorts (Some (encodeMap (appPorts s)));
                        MTimestamp (Some now); MVersion (Some "1.0")])).
Proof.
  intros (Hmk & _ & Hwr). unfold saveToFile.
  destruct (Unmarshal_snapshot s now) as (data & -> & _ & -> & _).
  by rewrite Hmk, Hwr.
Qed.

Lemma healthy_withFile fs path path' data :
  healthy fs path → healthy (withFile fs path' data) path.
Proof. done. Qed.

(** *** Decoding a document without a map, or with a null map *)

Lemma decode_keeps_AppPorts members : ∀ pd,
  noAppPorts members = true →
  AppPorts (foldl decodeMember pd members) = AppPorts pd.
Proof.
  induction members as [|mb members IH]; intros pd Hno; simpl; [done |].
  unfold noAppPorts in Hno. simpl in Hno. apply andb_true_iff in Hno as [Hmb Hno].
  rewrite IH by done. by destruct mb as [|[]|[]].
Qed.

Lemma decode_absent members :
  noAppPorts members = true →
  AppPorts (foldl decodeMember zeroPortData members) = None.
Proof. intros Hno. by rewrite decode_keeps_AppPorts. Qed.

Lemma decode_null before after :
  noAppPorts after = true →
  AppPorts (foldl decodeMember zeroPortData (before ++ MAppPorts None :: after))
  = None.
Proof.
  intros Hno. rewrite foldl_app. simpl. by rewrite decode_keeps_AppPorts.
Qed.

Lemma decode_object before kvs after :
  noAppPorts before = true → noAppPorts after = true →
  AppPorts (foldl decodeMember zeroPortData
              (before ++ MAppPorts (Some kvs) :: after)) = Some (assign ∅ kvs).
Proof.
  intros Hb Ha. rewrite foldl_app. simpl. rewrite decode_keeps_AppPorts by done.
  simpl. by rewrite decode_keeps_AppPorts.
Qed.

(** *** Load *)

Lemma LoadFromFile_parsed s now fs data pd :
  healthy fs (dataFile s) → files fs !! dataFile s = Some data →
  data ≠ Empty → json_Unmarshal data = Some pd →
  LoadFromFile s now fs = (None, withAppPorts s (default ∅ (AppPorts pd)), fs).
Proof.
  intros (Hmk & Hrd & _) Hfile Hne Hpd. unfold LoadFromFile.
  rewrite Hmk, Hfile, Hrd. simpl.
  destruct data; [done | | |]; rewrite Hpd; by destruct (AppPorts pd).
Qed.

(** Load into a new registry right after a save. *)
Lemma Load_after_save s now fs interval now' :
  healthy fs (dataFile s) → validNames (appPorts s) →
  LoadFromFile (NewAppPortStorage (dataFile s) interval) now'
               (saveToFile s now fs).2 =
  (None, withAppPorts (NewAppPortStorage (dataFile s) interval) (appPorts s),
   (saveToFile s now fs).2).
Proof.
  intros Hh Hvalid. rewrite saveToFile_healthy by done. cbn [snd].
  rewrite (LoadFromFile_parsed _ now' _
             (JSONObject [MAppPorts (Some (encodeMap (appPorts s)));
                          MTimestamp (Some now); MVersion (Some "1.0")])
             {| AppPorts := Some (assign ∅ (encodeMap (appPorts s)));
                Timestamp := now; Version := "1.0" |}).
  - cbn [AppPorts default]. by rewrite assign_encodeMap.
  - by apply healthy_withFile.
  - apply lookup_insert_eq.
  - done.
  - reflexivity.
Qed.

(** C7: on a file system without faults, Load returns no error in the
    cases that are not corrupt. With no file, it writes the snapshot of the
    map it holds, for a new registry the empty snapshot, and keeps the
    registry as it is; with a file of no bytes it keeps the registry as it
    is, so the map of a new registry stays empty; with a file that
    Unmarshal accepts, the map becomes the decoded map, whatever it was
    before, or the empty map when the decoded field is nil, which is the
    case for the text null, for an object without the member and for an
    object whose member is null. *)
Theorem LoadFromFile_spec (s : AppPortStorage) (now : Z) (fs : FS) :
  healthy fs (dataFile s) →
  (files fs !! dataFile s = None →
     LoadFromFile s now fs =
       (None, s,
        withFile fs (dataFile s)
          (JSONObject [MAppPorts (Some (encodeMap (appPorts s)));
                       MTimestamp (Some now); MVersion (Some "1.0")])) ∧
     (appPorts s = ∅ → encodeMap (appPorts s) = [])) ∧
  (files fs !! dataFile s = Some Empty → LoadFromFile s now fs = (None, s, fs)) ∧
  (∀ data pd,
     files fs !! dataFile s = Some data → data ≠ Empty →
     json_Unmarshal data = Some pd →
     LoadFromFile s now fs = (None, withAppPorts s (default ∅ (AppPorts pd)), fs) ∧
     (AppPorts pd = None →
        appPorts (LoadFromFile s now fs).1.2 = ∅) ∧
     (∀ m, AppPorts pd = Some m → appPorts (LoadFromFile s now fs).1.2 = m)) ∧
  (AppPorts <$> json_Unmarshal JSONNull = Some None) ∧
  (∀ members, noAppPorts members = true →
     AppPorts <$> json_Unmarshal (JSONObject members) = Some None) ∧
  (∀ before after, noAppPorts after = true →
     AppPorts <$> json_Unmarshal (JSONObject (before ++ MAppPorts None :: after))
     = Some None) ∧
  (∀ before kvs after, noAppPorts before = true → noAppPorts after = true →
     AppPorts <$> json_Unmarshal
                    (JSONObject (before ++ MAppPorts (Some kvs) :: after))
     = Some (Some (assign ∅ kvs))).
Proof.
  intros Hh. pose proof Hh as (Hmk & Hrd & Hwr). split_and!.
  - intros Hfile. split.
    + unfold LoadFromFile. rewrite Hmk, Hfile. simpl.
      by rewrite saveToFile_healthy.
    + by intros ->.
  - intros Hfile. unfold LoadFromFile. by rewrite Hmk, Hfile, Hrd.
  - intros data pd Hfile Hne Hpd.
    rewrite (LoadFromFile_parsed s now fs data pd) by done.
    split_and!; [done | by intros -> | by intros m ->].
  - done.
  - intros members Hno. simpl. by rewrite decode_absent.
  - intros before after Hno. simpl. by rewrite decode_null.
  - intros before kvs after Hb Ha. simpl. by rewrite decode_object.
Qed.

(** The scenario of the specification: an empty file, Load, Set, flush. *)
Example LoadFromFile_scenario :
  let s0 := NewAppPortStorage "ports.json" 60000000000 in
  let disk := withFile emptyDisk "ports.json" Empty in
  LoadFromFile s0 0 disk = (None, s0, disk) ∧
  GetAllApps s0 = ∅ ∧
  files (SyncToFile (SetAppPort s0 "svc" 12345).2 7 disk).2 !! "ports.json"%string =
  Some (JSONObject [MAppPorts (Some [("svc"%string, 12345)]);
                    MTimestamp (Some 7); MVersion (Some "1.0")]).
Proof. split_and!; by vm_compute. Qed.

Lemma LoadFromFile_spec_witness :
  LoadFromFile (NewAppPortStorage "ports.json" 60000000000) 0
               (withFile emptyDisk "ports.json" Empty) =
  (None, NewAppPortStorage "ports.json" 60000000000,
   withFile emptyDisk "ports.json" Empty).
Proof.
  apply (LoadFromFile_spec (NewAppPortStorage "ports.json" 60000000000) 0
           (withFile emptyDisk "ports.json" Empty)).
  - done.
  - by vm_compute.
Defined.

(** *** Set, Get and the trip through the file *)

(** C5, amended: for a name that is not empty and a port of 1..65535, Set
    returns no error and Get then returns the port; and when every name of
    the registry, the new one included, is valid UTF-8, a flush on a file
    system without faults followed by Load into a new registry on the same
    file gives back the same map, so Get returns the port there too. *)
Theorem SetAppPort_roundtrip (s : AppPortStorage) (name : string) (port : Z) :
  name ≠ "" → 1 ≤ port ≤ 65535 →
  let s1 := withAppPorts s (<[name := port]> (appPorts s)) in
  SetAppPort s name port = (None, s1) ∧
  GetAppPort s1 name = (port, None) ∧
  ∀ now fs, validNames (appPorts s1) → healthy fs (dataFile s) →
    ∃ fs1, SyncToFile s1 now fs = (None, fs1) ∧
      ∀ interval now',
        ∃ s2, LoadFromFile (NewAppPortStorage (dataFile s) interval) now' fs1 =
              (None, s2, fs1) ∧
              appPorts s2 = appPorts s1 ∧
              GetAppPort s2 name = (port, None).
Proof.
  intros Hname Hport s1.
  assert (Hget : ∀ s', appPorts s' = appPorts s1 → GetAppPort s' name = (port, None)).
  { intros s' Hs'. unfold GetAppPort. rewrite decide_False by done.
    rewrite Hs'. simpl. by rewrite lookup_insert_eq. }
  split_and!.
  - unfold SetAppPort. rewrite decide_False by done.
    destruct (port <=? 0) eqn:H1; [apply Z.leb_le in H1; lia |].
    destruct (port >? 65535) eqn:H2; [| done].
    rewrite Z.gtb_ltb in H2. apply Z.ltb_lt in H2. lia.
  - by apply Hget.
  - intros now fs Hvalid Hh. exists (saveToFile s1 now fs).2. split.
    { unfold SyncToFile. by rewrite (saveToFile_healthy s1). }
    intros interval now'. eexists. split.
    + by apply (Load_after_save s1).
    + split; [done | by apply Hget].
Qed.

Lemma SetAppPort_roundtrip_witness :
  GetAppPort (withAppPorts (NewAppPortStorage "ports.json" 60000000000)
                (<["svc"%string := 12345]> ∅)) "svc" = (12345, None).
Proof.
  apply (SetAppPort_roundtrip (NewAppPortStorage "ports.json" 60000000000)
           "svc" 12345); [done | lia].
Defined.

(** C5 as stated fails for a name that is not UTF-8: the name of the one
    byte FF is set and read back, but the file holds it as U+FFFD, and the
    new registry does not know the name. It fails as well for the valid
    name U+FFFD set to port 2 in a registry that holds the name FF with
    port 1: the file has the name U+FFFD twice, first with 2 and then with
    1, and the new registry answers 1. *)
Lemma SetAppPort_roundtrip_counterexample :
  let name := String (Ascii.ascii_of_N 255) EmptyString in
  let s0 := NewAppPortStorage "ports.json" 60000000000 in
  let s1 := (SetAppPort s0 name 80).2 in
  let fs1 := (SyncToFile s1 1 emptyDisk).2 in
  let s2 := (LoadFromFile s0 2 fs1).1.2 in
  let t0 := (SetAppPort s0 name 1).2 in
  let t1 := (SetAppPort t0 UTF8.RuneError 2).2 in
  let ft1 := (SyncToFile t1 1 emptyDisk).2 in
  let t2 := (LoadFromFile s0 2 ft1).1.2 in
  (name ≠ "" ∧
   (SetAppPort s0 name 80).1 = None ∧
   GetAppPort s1 name = (80, None) ∧
   (SyncToFile s1 1 emptyDisk).1 = None ∧
   (LoadFromFile s0 2 fs1).1.1 = None ∧
   GetAppPort s2 name = (0, Some (ErrNotFound name))) ∧
  (UTF8.RuneError ≠ "" ∧ UTF8.ValidString UTF8.RuneError = true ∧
   (SetAppPort t0 UTF8.RuneError 2).1 = None ∧
   GetAppPort t1 UTF8.RuneError = (2, None) ∧
   (SyncToFile t1 1 emptyDisk).1 = None ∧
   (LoadFromFile s0 2 ft1).1.1 = None ∧
   GetAppPort t2 UTF8.RuneError = (1, None)).
Proof. split_and!; by vm_compute. Qed.

(** *** Delete *)

(** C6: Delete returns the error for an empty name on the empty name and
    the not-found error on a name without mapping, the registry and the file
    being untouched. On a mapped name it removes the mapping, so Get then
    returns the not-found error, and makes the flush of the map without the
    name inside the call: what it returns is what that flush returns, and on
    a file system without faults there is no error and the file holds the
    snapshot of the map after the deletion; when the names are valid UTF-8 a
    new registry loaded from that file does not know the name. *)
Theorem DeleteAppPort_spec (s : AppPortStorage) (now : Z) (fs : FS)
    (name : string) :
  (name = "" → DeleteAppPort s now fs name = (Some ErrEmptyName, s, fs)) ∧
  (name ≠ "" → appPorts s !! name = None →
     DeleteAppPort s now fs name = (Some (ErrNotFound name), s, fs)) ∧
  (name ≠ "" → is_Some (appPorts s !! name) →
     let s' := withAppPorts s (delete name (appPorts s)) in
     DeleteAppPort s now fs name =
       ((saveToFile s' now fs).1, s', (saveToFile s' now fs).2) ∧
     GetAppPort s' name = (0, Some (ErrNotFound name)) ∧
     (healthy fs (dataFile s) →
        (DeleteAppPort s now fs name).1.1 = None ∧
        files (DeleteAppPort s now fs name).2 !! dataFile s =
          json_MarshalIndent {| AppPorts := Some (delete name (appPorts s));
                                Timestamp := now; Version := "1.0" |} ∧
        (validNames (appPorts s) → ∀ interval now',
           ∃ s2, LoadFromFile (NewAppPortStorage (dataFile s) interval) now'
                              (DeleteAppPort s now fs name).2 =
                 (None, s2, (DeleteAppPort s now fs name).2) ∧
                 GetAppPort s2 name = (0, Some (ErrNotFound name))))).
Proof.
  split_and!.
  - intros ->. done.
  - intros Hname Hnone. unfold DeleteAppPort.
    rewrite decide_False by done. by rewrite Hnone.
  - intros Hname [port Hport] s'.
    assert (Hdel : DeleteAppPort s now fs name =
                   ((saveToFile s' now fs).1, s', (saveToFile s' now fs).2)).
    { unfold DeleteAppPort. rewrite decide_False by done. rewrite Hport.
      fold s'. by destruct (saveToFile s' now fs). }
    assert (Hget : ∀ s2, appPorts s2 = delete name (appPorts s) →
                         GetAppPort s2 name = (0, Some (ErrNotFound name))).
    { intros s2 Hs2. unfold GetAppPort. rewrite decide_False by done.
      by rewrite Hs2, lookup_delete_eq. }
    split_and!; [done | by apply Hget |].
    intros Hh. rewrite Hdel. cbn [fst snd].
    split_and!.
    + by rewrite (saveToFile_healthy s' now fs).
    + rewrite (saveToFile_healthy s' now fs) by done. cbn [snd withFile files].
      rewrite lookup_insert_eq. reflexivity.
    + intros Hvalid interval now'.
      assert (Hvalid' : validNames (appPorts s')).
      { intros k [v Hk]. apply Hvalid. exists v. subst s'. simpl in Hk.
        by apply lookup_delete_Some in Hk as [_ Hk]. }
      eexists. split; [by apply (Load_after_save s') | by apply Hget].
Qed.

Lemma DeleteAppPort_spec_witness :
  let s := (SetAppPort (NewAppPortStorage "ports.json" 60000000000) "svc" 12345).2 in
  (DeleteAppPort s 9 emptyDisk "svc").1.1 = None ∧
  DeleteAppPort s 9 emptyDisk "" = (Some ErrEmptyName, s, emptyDisk).
Proof.
  intros s.
  destruct (DeleteAppPort_spec s 9 emptyDisk "svc") as (_ & _ & Hmapped).
  destruct (Hmapped ltac:(done) ltac:(by exists 12345)) as (_ & _ & Hflush).
  destruct (Hflush ltac:(done)) as (Herr & _).
  split; [exact Herr |].
  by apply (DeleteAppPort_spec s 9 emptyDisk "").
Defined.

Example DeleteAppPort_scenario :
  let s0 := NewAppPortStorage "ports.json" 60000000000 in
  let s1 := (SetAppPort (SetAppPort s0 "svc" 12345).2 "db" 12346).2 in
  let r := DeleteAppPort s1 9 emptyDisk "svc" in
  r.1.1 = None ∧
  GetAppPort r.1.2 "svc" = (0, Some (ErrNotFound "svc")) ∧
  GetAppPort r.1.2 "db" = (12346, None) ∧
  files r.2 !! "ports.json"%string =
  Some (JSONObject [MAppPorts (Some [("db"%string, 12346)]);
                    MTimestamp (Some 9); MVersion (Some "1.0")]).
Proof. split_and!; by vm_compute. Qed.

(** *** The flush loops *)

(** What every event other than a stop keeps of a registry that runs. *)
Lemma event_running s fs ev :
  0 < syncInterval s → stopChan s = false → isStop ev = false →
  ∃ s' fs', event (s, fs) ev = Returned (s', fs') ∧
            syncInterval s' = syncInterval s ∧ stopChan s' = false ∧
            wg s' = (wg s + starts [ev])%nat.
Proof.
  intros Hpos Hopen Hev. destruct ev; try discriminate; cbn [event starts].
  - unfold LoadFromFile.
    destruct (negb (mkdirAll fs (dataFile s))); [eexists _, _; split_and!; eauto; lia |].
    destruct (files fs !! dataFile s) as [data|].
    2:{ destruct (saveToFile s now fs). eexists _, _; split_and!; eauto; lia. }
    destruct (negb (readFile fs (dataFile s))); [eexists _, _; split_and!; eauto; lia |].
    destruct data; simpl; eexists _, _; split_and!; eauto; simpl; lia.
  - unfold SetAppPort. destruct (decide (appName = "")); simpl;
      [eexists _, _; split_and!; eauto; lia |].
    destruct (_ || _); simpl; eexists _, _; split_and!; eauto; simpl; lia.
  - unfold DeleteAppPort. destruct (decide (appName = "")); simpl;
      [eexists _, _; split_and!; eauto; lia |].
    destruct (appPorts s !! appName); [| eexists _, _; split_and!; eauto; lia].
    destruct (saveToFile _ now fs). eexists _, _; split_and!; eauto; simpl; lia.
  - eexists _, _; split_and!; eauto; lia.
  - unfold StartAutoSync.
    destruct (syncInterval s <=? 0) eqn:H; [apply Z.leb_le in H; lia |].
    eexists _, _; split_and!; eauto; simpl; lia.
  - eexists _, _; split_and!; eauto; lia.
  - unfold loopExit. rewrite Hopen. eexists _, _; split_and!; eauto; lia.
Qed.

Lemma starts_cons ev evs : starts (ev :: evs) = (starts [ev] + starts evs)%nat.
Proof. by destruct ev. Qed.

Lemma events_running evs : ∀ s fs,
  0 < syncInterval s → stopChan s = false →
  forallb (λ ev, negb (isStop ev)) evs = true →
  ∃ s' fs', events (s, fs) evs = Returned (s', fs') ∧
            syncInterval s' = syncInterval s ∧ stopChan s' = false ∧
            wg s' = (wg s + starts evs)%nat.
Proof.
  induction evs as [|ev evs IH]; intros s fs Hpos Hopen Hno.
  - exists s, fs. simpl. split_and!; auto.
  - simpl in Hno. apply andb_true_iff in Hno as [Hev Hno].
    apply negb_true_iff in Hev.
    destruct (event_running s fs ev Hpos Hopen Hev) as (s1 & fs1 & He & Hi & Ho & Hw).
    destruct (IH s1 fs1) as (s' & fs' & Hes & Hi' & Ho' & Hw'); [lia | done | done |].
    exists s', fs'. cbn [events]. rewrite He. split_and!; [done | lia | done |].
    rewrite starts_cons. lia.
Qed.

(** C9, amended: StartAutoSync has no guard against a second start. On a
    registry with a positive interval every call returns and leaves one
    more flush loop than there was, so through any events without a stop,
    from a registry whose stop channel is open, the number of active flush
    loops is the number at the beginning plus the number of StartAutoSync
    calls: one loop only when it was called once. StopAutoSync leaves no
    loop. *)
Theorem StartAutoSync_adds_a_loop (s : AppPortStorage) (fs : FS)
    (evs : list Event) :
  0 < syncInterval s → stopChan s = false →
  forallb (λ ev, negb (isStop ev)) evs = true →
  (∃ s', StartAutoSync s = Returned s' ∧ wg s' = S (wg s)) ∧
  (∃ s' fs', events (s, fs) evs = Returned (s', fs') ∧
             wg s' = (wg s + starts evs)%nat) ∧
  (∀ now, ∃ s' fs', StopAutoSync s now fs = Returned (s', fs') ∧ wg s' = O).
Proof.
  intros Hpos Hopen Hno. split_and!.
  - unfold StartAutoSync.
    destruct (syncInterval s <=? 0) eqn:H; [apply Z.leb_le in H; lia |].
    by eexists.
  - destruct (events_running evs s fs Hpos Hopen Hno) as (s' & fs' & ? & _ & _ & ?).
    by exists s', fs'.
  - intros now. unfold StopAutoSync. rewrite Hopen. by eexists _, _.
Qed.

Lemma StartAutoSync_adds_a_loop_witness :
  ∃ s' fs', events (NewAppPortStorage "ports.json" 60000000000, emptyDisk)
                   [EvLoad 0; EvStart; EvSet "svc" 12345; EvTick 60] =
            Returned (s', fs') ∧
            wg s' = 1%nat.
Proof.
  destruct (StartAutoSync_adds_a_loop
              (NewAppPortStorage "ports.json" 60000000000) emptyDisk
              [EvLoad 0; EvStart; EvSet "svc" 12345; EvTick 60])
    as (_ & (s' & fs' & He & Hw) & _); [done | done | done |].
  by exists s', fs'.
Defined.

(** C9 as stated fails: after Load, a second StartAutoSync is accepted and
    leaves two flush loops active. *)
Lemma StartAutoSync_counterexample :
  match events (NewAppPortStorage "ports.json" 60000000000, emptyDisk)
               [EvLoad 0; EvStart; EvStart] with
  | Returned (s, _) => wg s = 2%nat
  | Panicked _ => False
  end.
Proof. by vm_compute. Qed.

End StorageFacts.

(** ** More on the allocator *)

Module PortMore.
Import Port PortFacts.

(** *** Release *)

Lemma same_manager pm m :
  usedPorts pm = m →
  {| minPort := minPort pm; maxPort := maxPort pm; usedPorts := m |} = pm.
Proof. intros <-. by destruct pm. Qed.

(** X1: ReleasePort is idempotent, leaves a manager that does not hold the
    port exactly as it was, frees the port, and changes neither the
    reservation of another port nor the range. *)
Theorem ReleasePort_only_that_port (pm : PortManager) (p : Z) :
  ReleasePort (ReleasePort pm p) p = ReleasePort pm p ∧
  (usedPorts pm !! p = None → ReleasePort pm p = pm) ∧
  used (ReleasePort pm p) p = false ∧
  (∀ q, q ≠ p → used (ReleasePort pm p) q = used pm q) ∧
  GetPortRange (ReleasePort pm p) = GetPortRange pm.
Proof.
  split_and!.
  - unfold ReleasePort; simpl. by rewrite delete_delete_eq.
  - intros Hnone. unfold ReleasePort. apply same_manager. symmetry. by apply delete_id.
  - apply ReleasePort_frees.
  - intros q Hq. unfold used, ReleasePort; simpl. by rewrite lookup_delete_ne.
  - done.
Qed.

Lemma ReleasePort_only_that_port_witness :
  ReleasePort (NewPortManager 10000 10010) 10007 = NewPortManager 10000 10010.
Proof.
  by apply (ReleasePort_only_that_port (NewPortManager 10000 10010) 10007).
Defined.

(** *** Candidates *)

Lemma candidate_value e pm i :
  Shape.intRange pm →
  candidate e pm i =
  Returned (rnd e i mod (maxPort pm - minPort pm + 1) + minPort pm) ∧
  minPort pm ≤ rnd e i mod (maxPort pm - minPort pm + 1) + minPort pm
            ≤ maxPort pm.
Proof.
  intros (Hlo & Hle & Hhi & Hfit).
  pose proof (Z.mod_pos_bound (rnd e i) (maxPort pm - minPort pm + 1)
                ltac:(lia)) as Hmod.
  split; [| lia].
  unfold candidate, Intn. rewrite span_forwards by done.
  destruct (_ <=? 0) eqn:H; [apply Z.leb_le in H; lia |].
  unfold GoInt.add. rewrite GoIntFacts.wrap_id; [done |].
  unfold GoInt.MinInt, GoInt.MaxInt in *. lia.
Qed.

(** X2: on a range whose bounds are ints in order and whose width is an
    int, every candidate that GetRandomPort and GetRandomPorts draw is
    minPort plus the raw draw modulo the width, a port of
    [minPort, maxPort]: the range check of IsPortAvailable never turns a
    candidate down. *)
Theorem candidate_in_range (e : Env) (pm : PortManager) (i : nat) :
  Shape.intRange pm →
  ∃ p, candidate e pm i = Returned p ∧
       p = rnd e i mod (maxPort pm - minPort pm + 1) + minPort pm ∧
       minPort pm ≤ p ≤ maxPort pm ∧
       IsPortAvailable pm (os e i) p =
       (if used pm p then (false, []) else checkPortBySocket (os e i) p).
Proof.
  intros Hr. destruct (candidate_value e pm i Hr) as [Hc Hin].
  eexists. split_and!; [exact Hc | done | lia | lia |].
  unfold IsPortAvailable.
  destruct (_ <? minPort pm) eqn:H1; [apply Z.ltb_lt in H1; lia |].
  destruct (_ >? maxPort pm) eqn:H2; [| done].
  rewrite Z.gtb_ltb in H2. apply Z.ltb_lt in H2. lia.
Qed.

Lemma candidate_in_range_witness :
  ∃ p, candidate (counting allFree) (NewPortManager 10000 10010) 13 = Returned p ∧
       p = 10002.
Proof.
  destruct (candidate_in_range (counting allFree) (NewPortManager 10000 10010) 13)
    as (p & Hc & Hp & _); [by vm_compute |].
  exists p. split; [done |]. rewrite Hp. reflexivity.
Defined.

(** *** What an allocation changes *)

Lemma checkPortBySocket_calls os p :
  (length (checkPortBySocket os p).2 ≤ 5)%nat.
Proof.
  unfold checkPortBySocket.
  destruct (tcpListen os p), (resolveUDPAddr os p), (listenUDP os p); simpl; lia.
Qed.

Lemma IsPortAvailable_calls pm os p :
  (length (IsPortAvailable pm os p).2 ≤ 5)%nat.
Proof.
  unfold IsPortAvailable.
  destruct (_ || _); [simpl; lia |].
  destruct (used pm p); [simpl; lia | apply checkPortBySocket_calls].
Qed.

Lemma GetRandomPort_loop_calls e pm left : ∀ i cs a,
  GetRandomPort_loop e pm left i cs = Returned a →
  (i ≤ draws a)%nat ∧
  (length (netcalls a) ≤ length cs + 5 * (draws a - i))%nat.
Proof.
  induction left as [|left IH]; intros i cs a; cbn [GetRandomPort_loop].
  - intros [= <-]; simpl. lia.
  - destruct (candidate e pm i) as [port|]; [| discriminate].
    pose proof (IsPortAvailable_calls pm (os e i) port) as Hc.
    destruct (IsPortAvailable pm (os e i) port) as [ok cs'].
    simpl in Hc. destruct ok.
    + intros [= <-]; simpl. rewrite length_app. lia.
    + intros Hr. apply IH in Hr as [Hi Hl]. rewrite length_app in Hl. lia.
Qed.

Lemma markPortAsUsed_other pm p q :
  q ≠ p → used (markPortAsUsed pm p) q = used pm q.
Proof.
  intros Hq. unfold used, markPortAsUsed; simpl. by rewrite lookup_insert_ne.
Qed.

Lemma markPortAsUsed_cases pm p q :
  used (markPortAsUsed pm p) q = used pm q || bool_decide (q = p).
Proof.
  destruct (decide (q = p)) as [->|Hq].
  - rewrite markPortAsUsed_used, bool_decide_eq_true_2 by done. by rewrite orb_true_r.
  - rewrite markPortAsUsed_other, bool_decide_eq_false_2 by done. by rewrite orb_false_r.
Qed.

(** X3: a GetRandomPort call that returns keeps the range; when it returns
    a port, that port was not reserved before the call and the reservation
    of every other port is what it was; and it makes at most five calls into
    package net per draw. *)
Theorem GetRandomPort_frame (e : Env) (pm : PortManager) (a : Alloc Z) :
  GetRandomPort e pm = Returned a →
  GetPortRange (mgr a) = GetPortRange pm ∧
  (err a = None →
     used pm (value a) = false ∧ used (mgr a) (value a) = true ∧
     ∀ q, q ≠ value a → used (mgr a) q = used pm q) ∧
  (length (netcalls a) ≤ 5 * draws a)%nat.
Proof.
  intros Hr.
  pose proof (GetRandomPort_loop_calls _ _ _ _ _ _ Hr) as [_ Hcalls].
  apply GetRandomPort_loop_returned in Hr.
  destruct (err a) as [er|].
  - destruct Hr as (_ & _ & -> & _). split_and!; [done | done | simpl in Hcalls; lia].
  - destruct Hr as (j & _ & _ & _ & Hav & -> & _).
    apply IsPortAvailable_true in Hav as (_ & Hfree & _).
    split_and!; [done | | simpl in Hcalls; lia].
    intros _. split_and!; [done | apply markPortAsUsed_used |].
    intros q Hq. by apply markPortAsUsed_other.
Qed.

Lemma GetRandomPort_frame_witness :
  ∃ a, GetRandomPort (counting (onlyFree 10007)) (NewPortManager 10000 10010) =
       Returned a ∧ (length (netcalls a) ≤ 5 * draws a)%nat.
Proof.
  destruct (GetRandomPort_loop_total (counting (onlyFree 10007))
              (NewPortManager 10000 10010) 100 0 [] ltac:(by vm_compute))
    as [a Ha].
  exists a. split; [exact Ha |].
  by destruct (GetRandomPort_frame _ _ _ Ha) as (_ & _ & ?).
Defined.

Lemma GetRandomPorts_loop_marks e count left : ∀ pm i ports cs pm' n ports' cs',
  GetRandomPorts_loop e count pm left i ports cs = Returned (pm', n, ports', cs') →
  ∃ new, ports' = ports ++ new ∧
         (∀ q, used pm' q = used pm q || bool_decide (q ∈ new)) ∧
         (∀ p, p ∈ new → used pm p = false) ∧
         GetPortRange pm' = GetPortRange pm ∧
         (i ≤ n)%nat ∧
         (length cs' ≤ length cs + 5 * (n - i))%nat.
Proof.
  induction left as [|left IH]; intros pm i ports cs pm' n ports' cs';
    cbn [GetRandomPorts_loop].
  - intros [= <- <- <- <-]. exists []. rewrite app_nil_r.
    split_and!; [done | | | done | lia | lia].
    + intros q. rewrite bool_decide_eq_false_2; [by rewrite orb_false_r |].
      apply not_elem_of_nil.
    + by intros p ?%elem_of_nil.
  - destruct (_ <? count).
    2:{ intros [= <- <- <- <-]. exists []. rewrite app_nil_r.
        split_and!; [done | | | done | lia | lia].
        + intros q. rewrite bool_decide_eq_false_2; [by rewrite orb_false_r |].
          apply not_elem_of_nil.
        + by intros p ?%elem_of_nil. }
    destruct (candidate e pm i) as [port|]; [| discriminate].
    pose proof (IsPortAvailable_calls pm (os e i) port) as Hc.
    destruct (IsPortAvailable pm (os e i) port) as [ok cs1] eqn:Hav.
    simpl in Hc.
    destruct (ok && negb (alreadyExists ports port)) eqn:Hok.
    + apply andb_true_iff in Hok as [-> _].
      assert (Hfree : used pm port = false).
      { assert (H : (IsPortAvailable pm (os e i) port).1 = true) by by rewrite Hav.
        by apply IsPortAvailable_true in H as (_ & ? & _). }
      intros Hr. apply IH in Hr as (new & -> & Hused & Hnew & Hrg & Hn & Hl).
      exists (port :: new). rewrite length_app in Hl.
      split_and!; [by rewrite <- app_assoc | | | done | lia | lia].
      * intros q. rewrite Hused, markPortAsUsed_cases, <- orb_assoc. f_equal.
        destruct (decide (q = port)) as [->|Hq].
        -- rewrite bool_decide_eq_true_2 by done.
           symmetry. apply bool_decide_eq_true_2. left.
        -- rewrite (bool_decide_eq_false_2 (q = port)) by done. simpl.
           apply bool_decide_ext. rewrite elem_of_cons.
           split; [by right | by intros [? | ?]].
      * intros p [->|Hp]%elem_of_cons; [done |].
        specialize (Hnew p Hp). destruct (used pm p) eqn:Hu; [| done].
        by rewrite markPortAsUsed_keeps in Hnew.
    + intros Hr. apply IH in Hr as (new & -> & Hused & Hnew & Hrg & Hn & Hl).
      exists new. rewrite length_app in Hl. split_and!; try done; lia.
Qed.

Lemma GetRandomPorts_marks_all e pm count a :
  GetRandomPorts e pm count = Returned a →
  GetPortRange (mgr a) = GetPortRange pm ∧
  (∀ q, used (mgr a) q = used pm q || bool_decide (q ∈ value a)) ∧
  (∀ p, p ∈ value a → used pm p = false) ∧
  (length (netcalls a) ≤ 5 * draws a)%nat.
Proof.
  unfold GetRandomPorts.
  destruct (count <=? 0).
  { intros [= <-]; cbn [mgr value netcalls draws]. split_and!; [done | | | simpl; lia].
    - intros q. rewrite bool_decide_eq_false_2; [by rewrite orb_false_r |].
      apply not_elem_of_nil.
    - by intros p ?%elem_of_nil. }
  destruct (count >? maxSliceCap); [discriminate |].
  destruct (GetRandomPorts_loop _ _ _ _ _ _ _) as [[[[pm' n] ports] cs]|] eqn:Hl;
    [| discriminate].
  apply GetRandomPorts_loop_marks in Hl as (new & Hp & Hused & Hnew & Hrg & _ & Hc).
  simpl in Hp, Hc. subst ports.
  destruct (_ <? count); intros [= <-]; cbn [mgr value netcalls draws];
    split_and!; try done; lia.
Qed.

(** X4: a GetRandomPorts call that returns, with or without error, keeps
    the range and marks exactly the ports it returns: the ports returned
    were not reserved before, they are reserved after, and no other
    reservation changes; and it makes at most five calls into package net
    per draw. *)
Theorem GetRandomPorts_marks (e : Env) (pm : PortManager) (count : Z)
    (a : Alloc (list Z)) :
  GetRandomPorts e pm count = Returned a →
  GetPortRange (mgr a) = GetPortRange pm ∧
  (∀ q, used (mgr a) q = used pm q || bool_decide (q ∈ value a)) ∧
  (∀ p, p ∈ value a → used pm p = false) ∧
  (length (netcalls a) ≤ 5 * draws a)%nat.
Proof. apply GetRandomPorts_marks_all. Qed.

Lemma GetRandomPorts_marks_witness :
  ∃ a, GetRandomPorts (counting (onlyFree 10007)) (NewPortManager 10000 10010) 2 =
       Returned a ∧
       ∀ q, used (mgr a) q = used (NewPortManager 10000 10010) q
                             || bool_decide (q ∈ value a).
Proof.
  destruct (GetRandomPorts_total (counting (onlyFree 10007))
              (NewPortManager 10000 10010) 2 ltac:(by vm_compute)
              ltac:(by vm_compute)) as [a Ha].
  exists a. split; [exact Ha |].
  by destruct (GetRandomPorts_marks _ _ _ _ Ha) as (_ & ? & _).
Defined.

(** *** A range without a free port *)

Lemma GetRandomPort_loop_all_reserved e pm left : ∀ i cs,
  Shape.intRange pm →
  (∀ p, minPort pm ≤ p ≤ maxPort pm → used pm p = true) →
  GetRandomPort_loop e pm left i cs =
  Returned {| value := 0; err := Some ErrNoAvailablePort; mgr := pm;
              draws := (i + left)%nat; netcalls := cs |}.
Proof.
  induction left as [|left IH]; intros i cs Hr Hall; cbn [GetRandomPort_loop].
  - by rewrite Nat.add_0_r.
  - destruct (candidate_value e pm i Hr) as [-> Hin].
    rewrite IsPortAvailable_used by by apply Hall.
    rewrite app_nil_r, IH by done. do 2 f_equal. lia.
Qed.

(** X5: when every port of the range is reserved (the bounds being ints in
    order, the width an int), GetRandomPort draws its 100 candidates, makes
    no call into package net, and returns port 0 with the error for no
    available port, the manager being unchanged. *)
Theorem GetRandomPort_all_reserved (e : Env) (pm : PortManager) :
  Shape.intRange pm →
  (∀ p, minPort pm ≤ p ≤ maxPort pm → used pm p = true) →
  GetRandomPort e pm =
  Returned {| value := 0; err := Some ErrNoAvailablePort; mgr := pm;
              draws := 100; netcalls := [] |}.
Proof. intros Hr Hall. by apply (GetRandomPort_loop_all_reserved e pm 100 0 []). Qed.

Lemma GetRandomPort_all_reserved_witness :
  GetRandomPort (counting allFree)
                (markPortAsUsed (NewPortManager 10000 10000) 10000) =
  Returned {| value := 0; err := Some ErrNoAvailablePort;
              mgr := markPortAsUsed (NewPortManager 10000 10000) 10000;
              draws := 100; netcalls := [] |}.
Proof.
  apply GetRandomPort_all_reserved.
  - by vm_compute.
  - simpl. intros p Hp. assert (p = 10000) as -> by lia. reflexivity.
Defined.

(** *** A reserved port is never handed out *)

(** X6: once a port is reserved, no later GetRandomPort returns it and no
    later GetRandomPorts has it in its result, through any calls on the
    manager that do not release it. *)
Theorem reserved_never_allocated (pm pm' : PortManager) (p : Z)
    (cs : list Call) :
  used pm p = true → CallReleasePort p ∉ cs → calls pm cs = Returned pm' →
  (∀ e a, GetRandomPort e pm' = Returned a → err a = None → value a ≠ p) ∧
  (∀ e count a, GetRandomPorts e pm' count = Returned a → p ∉ value a).
Proof.
  intros Hu Hno Hcs.
  assert (Hu' : used pm' p = true) by by eapply calls_keep.
  split.
  - intros e a Ha Herr <-. apply GetRandomPort_loop_returned in Ha.
    rewrite Herr in Ha. destruct Ha as (j & _ & _ & _ & Hav & _).
    apply IsPortAvailable_true in Hav as (_ & Hfree & _). congruence.
  - intros e count a Ha Hin.
    apply GetRandomPorts_marks_all in Ha as (_ & _ & Hnew & _).
    specialize (Hnew p Hin). congruence.
Qed.

Lemma reserved_never_allocated_witness :
  match GetRandomPort (counting allFree)
                      (markPortAsUsed (NewPortManager 10000 10010) 10007) with
  | Returned a => err a = None → value a ≠ 10007
  | Panicked _ => True
  end.
Proof.
  destruct (GetRandomPort (counting allFree)
              (markPortAsUsed (NewPortManager 10000 10010) 10007))
    as [a|] eqn:Ha; [| done].
  destruct (reserved_never_allocated
              (markPortAsUsed (NewPortManager 10000 10010) 10007)
              (markPortAsUsed (NewPortManager 10000 10010) 10007) 10007 []
              ltac:(reflexivity) ltac:(apply not_elem_of_nil)
              ltac:(reflexivity)) as [Hone _].
  by apply (Hone (counting allFree)).
Defined.

(** *** Allocation after SetPortRange *)

(** X7: after a SetPortRange(lo, hi) that returns no error, hi being an
    int, GetRandomPort never panics, GetRandomPorts never panics for a count
    within the capacity limit of a slice, and every port they return lies
    in [lo, hi]. *)
Theorem SetPortRange_then_allocate (pm : PortManager) (lo hi : Z) (e : Env) :
  hi ≤ GoInt.MaxInt → (SetPortRange pm lo hi).1 = None →
  let pm' := (SetPortRange pm lo hi).2 in
  ¬ panics (GetRandomPort e pm') ∧
  (∀ count, count ≤ maxSliceCap → ¬ panics (GetRandomPorts e pm' count)) ∧
  (∀ a, GetRandomPort e pm' = Returned a → err a = None → lo ≤ value a ≤ hi) ∧
  (∀ count a p, GetRandomPorts e pm' count = Returned a → p ∈ value a →
                lo ≤ p ≤ hi).
Proof.
  intros Hint Hok pm'.
  assert (H : 0 < lo ∧ lo ≤ hi ∧ minPort pm' = lo ∧ maxPort pm' = hi).
  { subst pm'. unfold SetPortRange in *.
    destruct (lo <=? 0) eqn:H1; [discriminate |].
    destruct (hi <=? 0) eqn:H2; [discriminate |].
    destruct (lo >? hi) eqn:H3; [discriminate |].
    apply Z.leb_gt in H1, H2. rewrite Z.gtb_ltb in H3. apply Z.ltb_ge in H3.
    simpl. lia. }
  destruct H as (Hlo & Hle & Hmin & Hmax). clearbody pm'.
  assert (Hs : 0 < span pm').
  { rewrite span_forwards; rewrite ?Hmin, ?Hmax; unfold GoInt.MaxInt in *; lia. }
  split_and!.
  - intros [why Hp].
    destruct (GetRandomPort_loop_total e pm' 100 0%nat [] Hs) as [a Ha].
    unfold GetRandomPort in Hp. congruence.
  - intros count Hcap [why Hp].
    destruct (GetRandomPorts_total e pm' count Hs Hcap) as [a Ha]. congruence.
  - intros a Ha Herr. apply GetRandomPort_loop_returned in Ha.
    rewrite Herr in Ha. destruct Ha as (j & _ & _ & _ & Hav & _).
    apply IsPortAvailable_true in Hav as (Hin & _). lia.
  - intros count a p Ha Hp.
    destruct (Z_lt_le_dec 0 count) as [Hc|Hc].
    + apply GetRandomPorts_returned in Ha as ([_ Hrg _ _ _] & _); [| done].
      specialize (Hrg p Hp). lia.
    + unfold GetRandomPorts in Ha. apply Z.leb_le in Hc. rewrite Hc in Ha.
      injection Ha as <-. by apply elem_of_nil in Hp.
Qed.

Lemma SetPortRange_then_allocate_witness :
  ¬ panics (GetRandomPort (counting allFree)
              (SetPortRange (NewPortManager 2 1) 30000 40000).2).
Proof.
  by apply (SetPortRange_then_allocate (NewPortManager 2 1) 30000 40000
              (counting allFree) ltac:(by vm_compute) ltac:(reflexivity)).
Defined.

End PortMore.

(** ** More on the registry *)

Module StorageMore.
Import Storage StorageFacts.

(** *** Names through encoding/json *)

Lemma ValidString_RuneError t :
  UTF8.ValidString (UTF8.RuneError +:+ t) = UTF8.ValidString t.
Proof. reflexivity. Qed.

Lemma toValidUTF8_is_valid_len n : ∀ s,
  (String.length s ≤ n)%nat → UTF8.ValidString (UTF8.toValidUTF8 s) = true.
Proof.
  induction n as [|n IH]; intros s Hlen.
  { destruct s; [done | simpl in Hlen; lia]. }
  destruct s as [|c0 s0]; [done |]. simpl in Hlen.
  assert (Hbad : UTF8.ValidString (UTF8.RuneError +:+ UTF8.toValidUTF8 s0) = true).
  { rewrite ValidString_RuneError. apply IH. lia. }
  cbn [UTF8.toValidUTF8].
  destruct (UTF8.byte c0 <? 128)%N eqn:H0.
  { cbn [UTF8.ValidString]. rewrite H0. apply IH. lia. }
  destruct s0 as [|c1 s1]; [exact Hbad |]. simpl in Hlen.
  destruct (UTF8.seq2 c0 c1) eqn:H1.
  { cbn [UTF8.ValidString]. rewrite H0, H1. apply IH. lia. }
  destruct s1 as [|c2 s2]; [exact Hbad |]. simpl in Hlen.
  destruct (UTF8.seq3 c0 c1 c2) eqn:H2.
  { cbn [UTF8.ValidString]. rewrite H0, H1, H2. apply IH. lia. }
  destruct s2 as [|c3 s3]; [exact Hbad |]. simpl in Hlen.
  destruct (UTF8.seq4 c0 c1 c2 c3) eqn:H3; [| exact Hbad].
  cbn [UTF8.ValidString]. rewrite H0, H1, H2, H3. apply IH. lia.
Qed.

Lemma toValidUTF8_is_valid s : UTF8.ValidString (UTF8.toValidUTF8 s) = true.
Proof. by apply (toValidUTF8_is_valid_len (String.length s)). Qed.

Lemma toValidUTF8_nonempty s : s ≠ "" → UTF8.toValidUTF8 s ≠ "".
Proof.
  destruct s as [|c0 s0]; [done |]. intros _. cbn [UTF8.toValidUTF8].
  destruct (UTF8.byte c0 <? 128)%N; [done |].
  destruct s0 as [|c1 s1]; [done |].
  destruct (UTF8.seq2 c0 c1); [done |].
  destruct s1 as [|c2 s2]; [done |].
  destruct (UTF8.seq3 c0 c1 c2); [done |].
  destruct s2 as [|c3 s3]; [done |].
  by destruct (UTF8.seq4 c0 c1 c2 c3).
Qed.

(** *** What a reload holds *)

Lemma assign_lookup (l : list (string * Z)) : ∀ m k v,
  assign m l !! k = Some v → (k, v) ∈ l ∨ m !! k = Some v.
Proof.
  unfold assign. induction l as [|[k0 v0] l IH]; intros m k v; simpl.
  - by right.
  - intros [Hin | Hm]%IH.
    + left. by right.
    + destruct (decide (k0 = k)) as [->|Hne].
      * rewrite lookup_insert_eq in Hm. injection Hm as ->. left. left.
      * rewrite lookup_insert_ne in Hm by done. by right.
Qed.

Lemma encodeMap_elem m k' v :
  (k', v) ∈ encodeMap m → ∃ k, m !! k = Some v ∧ k' = UTF8.toValidUTF8 k.
Proof.
  unfold encodeMap. intros ([k v0] & [= -> ->] & Hin)%list_elem_of_fmap.
  rewrite merge_sort_Permutation in Hin. apply elem_of_map_to_list in Hin.
  by exists k.
Qed.

Lemma reloaded_from m k' v :
  Shape.reloaded m !! k' = Some v →
  ∃ k, m !! k = Some v ∧ k' = UTF8.toValidUTF8 k.
Proof.
  unfold Shape.reloaded. intros [Hin | Hm]%assign_lookup.
  - by apply encodeMap_elem.
  - by rewrite lookup_empty in Hm.
Qed.

Lemma reloaded_validNames m : validNames (Shape.reloaded m).
Proof.
  intros k' [v (k & _ & ->)%reloaded_from]. apply toValidUTF8_is_valid.
Qed.

Lemma reloaded_wellFormed m :
  Shape.wellFormed m → Shape.wellFormed (Shape.reloaded m).
Proof.
  intros Hm k' v (k & Hk & ->)%reloaded_from.
  destruct (Hm k v Hk) as [Hne Hv]. split; [by apply toValidUTF8_nonempty | done].
Qed.

Lemma Load_after_any_save s now fs interval now' :
  healthy fs (dataFile s) →
  LoadFromFile (NewAppPortStorage (dataFile s) interval) now'
               (saveToFile s now fs).2 =
  (None,
   withAppPorts (NewAppPortStorage (dataFile s) interval)
                (Shape.reloaded (appPorts s)),
   (saveToFile s now fs).2).
Proof.
  intros Hh. rewrite saveToFile_healthy by done. cbn [snd].
  rewrite (LoadFromFile_parsed _ now' _
             (JSONObject [MAppPorts (Some (encodeMap (appPorts s)));
                          MTimestamp (Some now); MVersion (Some "1.0")])
             {| AppPorts := Some (assign ∅ (encodeMap (appPorts s)));
                Timestamp := now; Version := "1.0" |}).
  - done.
  - by apply healthy_withFile.
  - apply lookup_insert_eq.
  - done.
  - reflexivity.
Qed.

(** X8: a save followed by Load into a new registry on the same file, on a
    file system without faults, always succeeds and gives the map of the
    file: every entry loaded is an entry of the saved map with its name
    coerced to valid UTF-8, so the loaded names are valid UTF-8 and the
    entries keep the shape SetAppPort asks for; and from the loaded
    registry on, a save and a Load give back exactly the same map. *)
Theorem reload_is_stable (s : AppPortStorage) (now now' : Z) (fs : FS)
    (interval : Z) :
  healthy fs (dataFile s) →
  let fs1 := (saveToFile s now fs).2 in
  let r := LoadFromFile (NewAppPortStorage (dataFile s) interval) now' fs1 in
  r.1.1 = None ∧ r.2 = fs1 ∧
  (∀ k' v, appPorts r.1.2 !! k' = Some v →
           ∃ k, appPorts s !! k = Some v ∧ k' = UTF8.toValidUTF8 k) ∧
  validNames (appPorts r.1.2) ∧
  (Shape.wellFormed (appPorts s) → Shape.wellFormed (appPorts r.1.2)) ∧
  (∀ now2 now3 interval',
     appPorts (LoadFromFile (NewAppPortStorage (dataFile s) interval') now3
                            (saveToFile r.1.2 now2 fs1).2).1.2 =
     appPorts r.1.2).
Proof.
  intros Hh fs1 r.
  assert (Hr : r = (None,
                    withAppPorts (NewAppPortStorage (dataFile s) interval)
                                 (Shape.reloaded (appPorts s)), fs1))
    by by apply Load_after_any_save.
  rewrite Hr. cbn [fst snd appPorts withAppPorts].
  split_and!; [done | done | apply reloaded_from | apply reloaded_validNames
               | apply reloaded_wellFormed |].
  intros now2 now3 interval'.
  assert (Hh1 : healthy fs1 (dataFile s)).
  { subst fs1. rewrite saveToFile_healthy by done. by apply healthy_withFile. }
  pose proof (Load_after_save
                (withAppPorts (NewAppPortStorage (dataFile s) interval)
                              (Shape.reloaded (appPorts s)))
                now2 fs1 interval' now3 Hh1 (reloaded_validNames _)) as Hl.
  change (dataFile (withAppPorts (NewAppPortStorage (dataFile s) interval)
                                 (Shape.reloaded (appPorts s))))
    with (dataFile s) in Hl.
  by rewrite Hl.
Qed.

Lemma reload_is_stable_witness :
  validNames
    (appPorts
       (LoadFromFile (NewAppPortStorage "ports.json" 60000000000) 2
          (saveToFile
             (SetAppPort (NewAppPortStorage "ports.json" 60000000000)
                         (String (Ascii.ascii_of_N 255) EmptyString) 80).2
             1 emptyDisk).2).1.2).
Proof.
  by apply (reload_is_stable
              (SetAppPort (NewAppPortStorage "ports.json" 60000000000)
                          (String (Ascii.ascii_of_N 255) EmptyString) 80).2
              1 2 emptyDisk 60000000000).
Defined.

(** *** Set and Get *)

Lemma SetAppPort_ok s name port :
  (SetAppPort s name port).1 = None →
  name ≠ "" ∧ 1 ≤ port ≤ 65535 ∧
  (SetAppPort s name port).2 = withAppPorts s (<[name := port]> (appPorts s)).
Proof.
  unfold SetAppPort. destruct (decide (name = "")); [discriminate |].
  destruct (port <=? 0) eqn:H1; [discriminate |].
  destruct (port >? 65535) eqn:H2; [discriminate |].
  apply Z.leb_gt in H1. rewrite Z.gtb_ltb in H2. apply Z.ltb_ge in H2.
  intros _. split_and!; [done | lia | lia | done].
Qed.

(** X9: SetAppPort rejects the empty name with the empty-name error,
    whatever the port, and a port outside 1..65535 with the invalid-port
    error; a rejected call leaves the registry exactly as it was, and no
    other call is rejected. *)
Theorem SetAppPort_rejects (s : AppPortStorage) (name : string) (port : Z) :
  (name = "" → SetAppPort s name port = (Some ErrEmptyName, s)) ∧
  (name ≠ "" → port ≤ 0 ∨ 65535 < port →
     SetAppPort s name port = (Some (ErrInvalidPort port), s)) ∧
  ((SetAppPort s name port).1 ≠ None → (SetAppPort s name port).2 = s) ∧
  ((SetAppPort s name port).1 = None ↔ name ≠ "" ∧ 1 ≤ port ≤ 65535).
Proof.
  unfold SetAppPort. split_and!.
  - intros ->. done.
  - intros Hname Hport. rewrite decide_False by done.
    destruct (port <=? 0) eqn:H1; [done |].
    destruct (port >? 65535) eqn:H2; [done |].
    apply Z.leb_gt in H1. rewrite Z.gtb_ltb in H2. apply Z.ltb_ge in H2. lia.
  - destruct (decide (name = "")); [done |].
    by destruct (_ || _).
  - destruct (decide (name = "")) as [->|Hname]; [by split; [| intros []] |].
    destruct (port <=? 0) eqn:H1.
    { apply Z.leb_le in H1. split; [done | lia]. }
    destruct (port >? 65535) eqn:H2.
    { rewrite Z.gtb_ltb in H2. apply Z.ltb_lt in H2. split; [done | lia]. }
    apply Z.leb_gt in H1. rewrite Z.gtb_ltb in H2. apply Z.ltb_ge in H2.
    simpl. split; [intros _; split; [done | lia] | done].
Qed.

Lemma SetAppPort_rejects_witness :
  SetAppPort (NewAppPortStorage "ports.json" 60000000000) "svc" 65536 =
  (Some (ErrInvalidPort 65536), NewAppPortStorage "ports.json" 60000000000).
Proof.
  apply (SetAppPort_rejects (NewAppPortStorage "ports.json" 60000000000)
           "svc" 65536); [done | lia].
Defined.

(** X10: a SetAppPort that returns no error changes the answer of
    GetAppPort and HasApp for that name only, keeps the file path, the
    interval and the flush loops, and a second SetAppPort of the same name
    replaces the port: the registry is the one the second call alone would
    give. *)
Theorem SetAppPort_frame (s : AppPortStorage) (name : string) (port : Z) :
  (SetAppPort s name port).1 = None →
  let s1 := (SetAppPort s name port).2 in
  HasApp s1 name = true ∧
  (∀ other, other ≠ name →
     GetAppPort s1 other = GetAppPort s other ∧ HasApp s1 other = HasApp s other) ∧
  dataFile s1 = dataFile s ∧ syncInterval s1 = syncInterval s ∧
  stopChan s1 = stopChan s ∧ wg s1 = wg s ∧
  (∀ port', (SetAppPort s1 name port').1 = None →
     (SetAppPort s1 name port').2 = (SetAppPort s name port').2 ∧
     GetAppPort (SetAppPort s1 name port').2 name = (port', None)).
Proof.
  intros (Hname & Hport & Hs1)%SetAppPort_ok s1. subst s1. rewrite Hs1.
  split_and!; try done.
  - unfold HasApp; simpl. apply bool_decide_eq_true_2.
    rewrite lookup_insert_eq. by eexists.
  - intros other Hother. unfold GetAppPort, HasApp; simpl.
    by rewrite lookup_insert_ne.
  - intros port' (_ & Hport' & Hs2)%SetAppPort_ok. rewrite Hs2.
    assert (Hsame : (SetAppPort s name port').2 =
                    withAppPorts s (<[name := port']> (appPorts s))).
    { unfold SetAppPort. rewrite decide_False by done.
      destruct (port' <=? 0) eqn:H1; [apply Z.leb_le in H1; lia |].
      destruct (port' >? 65535) eqn:H2; [| done].
      rewrite Z.gtb_ltb in H2. apply Z.ltb_lt in H2. lia. }
    rewrite Hsame. unfold withAppPorts; simpl. rewrite insert_insert_eq.
    split; [done |]. unfold GetAppPort; simpl.
    rewrite decide_False by done. by rewrite lookup_insert_eq.
Qed.

Lemma SetAppPort_frame_witness :
  HasApp (SetAppPort (NewAppPortStorage "ports.json" 60000000000) "svc" 12345).2
         "svc" = true.
Proof.
  by apply (SetAppPort_frame (NewAppPortStorage "ports.json" 60000000000)
              "svc" 12345).
Defined.

(** X11: for a name that is not empty, HasApp answers true exactly when
    GetAppPort returns a port without error, and that port is the entry
    GetAllApps shows for the name; on a name without entry GetAppPort
    returns port 0 with the not-found error; on the empty name GetAppPort
    returns the empty-name error even when the map has an entry for it. *)
Theorem HasApp_agrees (s : AppPortStorage) (name : string) :
  (name ≠ "" →
     (HasApp s name = true ↔ ∃ port, GetAppPort s name = (port, None)) ∧
     (∀ port, GetAppPort s name = (port, None) ↔
              GetAllApps s !! name = Some port) ∧
     (HasApp s name = false →
        GetAppPort s name = (0, Some (ErrNotFound name)))) ∧
  GetAppPort s "" = (0, Some ErrEmptyName).
Proof.
  split; [| done]. intros Hname.
  unfold HasApp, GetAppPort, GetAllApps. rewrite copy_map.
  rewrite decide_False by done.
  destruct (appPorts s !! name) as [p|] eqn:Hp; split_and!.
  - split; [by eexists | intros _]. apply bool_decide_eq_true_2. by eexists.
  - intros port. split; congruence.
  - intros H. apply bool_decide_eq_false_1 in H. destruct H. by eexists.
  - split; [| by intros [? ?]]. intros H. apply bool_decide_eq_true_1 in H.
    by destruct H.
  - intros port. split; discriminate.
  - done.
Qed.

Lemma HasApp_agrees_witness :
  GetAppPort (NewAppPortStorage "ports.json" 60000000000) "svc" =
  (0, Some (ErrNotFound "svc")).
Proof.
  apply (HasApp_agrees (NewAppPortStorage "ports.json" 60000000000) "svc");
    [done | reflexivity].
Defined.

(** *** The entries stay well formed *)

Lemma event_wellFormed s fs ev s' fs' :
  Shape.isLoad ev = false → event (s, fs) ev = Returned (s', fs') →
  Shape.wellFormed (appPorts s) → Shape.wellFormed (appPorts s').
Proof.
  intros Hev He Hwf. destruct ev; try discriminate; cbn [event] in He.
  - destruct (SetAppPort s appName port).1 eqn:Herr.
    + assert (Hsame : (SetAppPort s appName port).2 = s).
      { unfold SetAppPort in *. destruct (decide (appName = "")); [done |].
        by destruct (_ || _). }
      injection He as <- _. by rewrite Hsame.
    + apply SetAppPort_ok in Herr as (Hname & Hport & Hs1).
      injection He as <- _. rewrite Hs1. simpl.
      intros k v Hk. destruct (decide (appName = k)) as [<-|Hne].
      * rewrite lookup_insert_eq in Hk. injection Hk as <-. done.
      * rewrite lookup_insert_ne in Hk by done. by apply Hwf.
  - unfold DeleteAppPort in He. destruct (decide (appName = "")).
    { by injection He as <- _. }
    destruct (appPorts s !! appName); [| by injection He as <- _].
    destruct (saveToFile _ now fs). injection He as <- _. simpl.
    intros k v [_ Hk]%lookup_delete_Some. by apply Hwf.
  - by injection He as <- _.
  - unfold StartAutoSync in He. destruct (_ <=? 0); [discriminate |].
    by injection He as <- _.
  - by injection He as <- _.
  - injection He as <- _. unfold loopExit. by destruct (stopChan s).
  - unfold StopAutoSync in He. destruct (stopChan s); [discriminate |].
    by injection He as <- _.
Qed.

Lemma events_wellFormed_all evs : ∀ s fs s' fs',
  forallb (λ ev, negb (Shape.isLoad ev)) evs = true →
  events (s, fs) evs = Returned (s', fs') →
  Shape.wellFormed (appPorts s) → Shape.wellFormed (appPorts s').
Proof.
  induction evs as [|ev evs IH]; intros s fs s' fs' Hno; cbn [events].
  - by intros [= <- _].
  - simpl in Hno. apply andb_true_iff in Hno as [Hev Hno].
    apply negb_true_iff in Hev.
    destruct (event (s, fs) ev) as [[s1 fs1]|] eqn:He; [| discriminate].
    intros Hrest Hwf. eapply IH; [done | done |].
    by eapply event_wellFormed.
Qed.

(** X12: every entry of a new registry, through any events other than
    Load, has a name that is not empty and a port of 1..65535: GetAppPort
    never returns a port outside 1..65535 without error, and HasApp answers
    false for the empty name. *)
Theorem events_keep_entries_wellFormed (dataFile : string) (interval : Z)
    (fs fs' : FS) (evs : list Event) (s' : AppPortStorage) :
  forallb (λ ev, negb (Shape.isLoad ev)) evs = true →
  events (NewAppPortStorage dataFile interval, fs) evs = Returned (s', fs') →
  Shape.wellFormed (appPorts s') ∧
  HasApp s' "" = false ∧
  (∀ name port, GetAppPort s' name = (port, None) → 1 ≤ port ≤ 65535).
Proof.
  intros Hno He.
  assert (Hwf : Shape.wellFormed (appPorts s')).
  { eapply events_wellFormed_all; [done | done |].
    intros k v Hk. simpl in Hk. by rewrite lookup_empty in Hk. }
  split_and!; [done | |].
  - unfold HasApp. apply bool_decide_eq_false_2. intros [v Hv].
    by destruct (Hwf "" v Hv).
  - intros name port. unfold GetAppPort.
    destruct (decide (name = "")); [discriminate |].
    destruct (appPorts s' !! name) as [p|] eqn:Hp; [| discriminate].
    intros [= <-]. by destruct (Hwf name p Hp).
Qed.

Lemma events_keep_entries_wellFormed_witness :
  match events (NewAppPortStorage "ports.json" 60000000000, emptyDisk)
               [EvSet "svc" 12345; EvSet "" 1; EvSet "db" 0; EvDelete "svc" 3]
  with
  | Returned (s', _) => HasApp s' "" = false
  | Panicked _ => True
  end.
Proof.
  destruct (events (NewAppPortStorage "ports.json" 60000000000, emptyDisk)
              [EvSet "svc" 12345; EvSet "" 1; EvSet "db" 0; EvDelete "svc" 3])
    as [[s' fs']|] eqn:He; [| done].
  by destruct (events_keep_entries_wellFormed "ports.json" 60000000000
                 emptyDisk fs'
                 [EvSet "svc" 12345; EvSet "" 1; EvSet "db" 0; EvDelete "svc" 3]
                 s' ltac:(reflexivity) He) as (_ & ? & _).
Defined.

(** *** Load and save when something fails *)

(** X13: a LoadFromFile that returns an error leaves the registry exactly
    as it was; a LoadFromFile never changes a data file that exists; the
    error is the one for the directory when MkdirAll fails, the one for
    reading when the existing file cannot be read, and the one for parsing
    when Unmarshal refuses the bytes. *)
Theorem LoadFromFile_failure (s : AppPortStorage) (now : Z) (fs : FS) :
  ((LoadFromFile s now fs).1.1 ≠ None → (LoadFromFile s now fs).1.2 = s) ∧
  (is_Some (files fs !! dataFile s) → (LoadFromFile s now fs).2 = fs) ∧
  (mkdirAll fs (dataFile s) = false →
     LoadFromFile s now fs = (Some ErrMkdir, s, fs)) ∧
  (mkdirAll fs (dataFile s) = true → is_Some (files fs !! dataFile s) →
     readFile fs (dataFile s) = false →
     LoadFromFile s now fs = (Some ErrRead, s, fs)) ∧
  (mkdirAll fs (dataFile s) = true → readFile fs (dataFile s) = true →
     files fs !! dataFile s = Some Malformed →
     LoadFromFile s now fs = (Some ErrParse, s, fs)).
Proof.
  unfold LoadFromFile. split_and!.
  - destruct (mkdirAll fs (dataFile s)); [| done]. simpl.
    destruct (files fs !! dataFile s) as [data|].
    2:{ by destruct (saveToFile s now fs). }
    destruct (readFile fs (dataFile s)); [| done]. simpl.
    destruct data; try done; simpl; by destruct (foldl _ _ _).
  - intros [data Hd]. rewrite Hd.
    destruct (mkdirAll fs (dataFile s)); [| done]. simpl.
    destruct (readFile fs (dataFile s)); [| done]. simpl.
    by destruct data.
  - by intros ->.
  - intros -> [data ->] ->. done.
  - intros -> -> ->. done.
Qed.

Lemma LoadFromFile_failure_witness :
  LoadFromFile (SetAppPort (NewAppPortStorage "ports.json" 60000000000)
                           "svc" 12345).2
               0 (withFile emptyDisk "ports.json" Malformed) =
  (Some ErrParse,
   (SetAppPort (NewAppPortStorage "ports.json" 60000000000) "svc" 12345).2,
   withFile emptyDisk "ports.json" Malformed).
Proof.
  by apply (LoadFromFile_failure
              (SetAppPort (NewAppPortStorage "ports.json" 60000000000)
                          "svc" 12345).2
              0 (withFile emptyDisk "ports.json" Malformed)).
Defined.

(** X14: saveToFile returns no error exactly when MkdirAll and WriteFile
    succeed, and the data file then holds the snapshot of the map with the
    time of the save and the version 1.0; when MkdirAll fails nothing is
    written; and whatever happens, no file of another path changes. *)
Theorem saveToFile_outcome (s : AppPortStorage) (now : Z) (fs : FS) :
  ((saveToFile s now fs).1 = None ↔
     mkdirAll fs (dataFile s) = true ∧ writeFile fs (dataFile s) = WriteOK) ∧
  ((saveToFile s now fs).1 = None →
     files (saveToFile s now fs).2 !! dataFile s =
     Some (JSONObject [MAppPorts (Some (encodeMap (appPorts s)));
                       MTimestamp (Some now); MVersion (Some "1.0")])) ∧
  (mkdirAll fs (dataFile s) = false →
     saveToFile s now fs = (Some ErrMkdir, fs)) ∧
  (∀ path, path ≠ dataFile s →
     files (saveToFile s now fs).2 !! path = files fs !! path).
Proof.
  unfold saveToFile.
  destruct (Unmarshal_snapshot s now) as (data & -> & _ & -> & _).
  destruct (mkdirAll fs (dataFile s)); simpl.
  2:{ split_and!; try done. split; [done | by intros [? _]]. }
  destruct (writeFile fs (dataFile s)); simpl; split_and!; try done.
  - by rewrite lookup_insert_eq.
  - intros path Hp. by rewrite lookup_insert_ne.
  - split; [done | by intros [_ ?]].
  - split; [done | by intros [_ ?]].
  - intros path Hp. by rewrite lookup_insert_ne.
Qed.

Lemma saveToFile_outcome_witness :
  files (saveToFile (SetAppPort (NewAppPortStorage "ports.json" 60000000000)
                                "svc" 12345).2 7 emptyDisk).2
        !! "ports.json"%string =
  Some (JSONObject [MAppPorts (Some [("svc"%string, 12345)]);
                    MTimestamp (Some 7); MVersion (Some "1.0")]).
Proof.
  by apply (saveToFile_outcome
              (SetAppPort (NewAppPortStorage "ports.json" 60000000000)
                          "svc" 12345).2 7 emptyDisk).
Defined.

(** *** Stopping the flush loops *)

(** X15: StopAutoSync on a registry whose stop channel is open returns,
    with or without a flush loop running: the map is kept, the channel is
    closed, no flush loop is left, and on a file system without faults the
    data file holds the snapshot of the map at that time. A second
    StopAutoSync panics on the closed channel. *)
Theorem StopAutoSync_once (s : AppPortStorage) (now : Z) (fs : FS) :
  (stopChan s = true → StopAutoSync s now fs = Panicked PanicCloseClosed) ∧
  (stopChan s = false →
     ∃ s' fs', StopAutoSync s now fs = Returned (s', fs') ∧
       appPorts s' = appPorts s ∧ stopChan s' = true ∧ wg s' = O ∧
       (healthy fs (dataFile s) →
          files fs' !! dataFile s =
          Some (JSONObject [MAppPorts (Some (encodeMap (appPorts s)));
                            MTimestamp (Some now); MVersion (Some "1.0")])) ∧
       ∀ now', StopAutoSync s' now' fs' = Panicked PanicCloseClosed).
Proof.
  unfold StopAutoSync. split.
  - by intros ->.
  - intros ->. eexists _, _. split; [reflexivity |].
    split_and!; try done.
    intros Hh. rewrite (saveToFile_healthy _ now fs) by done. simpl.
    by rewrite lookup_insert_eq.
Qed.

Lemma StopAutoSync_once_witness :
  ∃ s' fs', StopAutoSync (NewAppPortStorage "ports.json" 60000000000) 5
                         emptyDisk = Returned (s', fs') ∧
            StopAutoSync s' 6 fs' = Panicked PanicCloseClosed.
Proof.
  destruct (StopAutoSync_once (NewAppPortStorage "ports.json" 60000000000) 5
              emptyDisk) as [_ Hopen].
  destruct (Hopen ltac:(reflexivity)) as (s' & fs' & Hs & _ & _ & _ & _ & Hagain).
  exists s', fs'. split; [exact Hs | apply Hagain].
Defined.

(** X16: a port set by SetAppPort reaches the file with the next flush,
    be it SyncToFile, the tick of a running flush loop or StopAutoSync: on
    a file system without faults and with names in valid UTF-8, a new
    registry loaded from the file after the flush returns the port for the
    name. *)
Theorem flush_persists_set (s : AppPortStorage) (fs : FS) (name : string)
    (port now : Z) (flush : Event) :
  name ≠ "" → 1 ≤ port ≤ 65535 →
  healthy fs (dataFile s) → validNames (<[name := port]> (appPorts s)) →
  flush = EvSync now ∨ (flush = EvTick now ∧ (0 < wg s)%nat) ∨
  (flush = EvStop now ∧ stopChan s = false) →
  ∃ s' fs', events (s, fs) [EvSet name port; flush] = Returned (s', fs') ∧
    ∀ interval now',
      GetAppPort (LoadFromFile (NewAppPortStorage (dataFile s) interval)
                               now' fs').1.2 name = (port, None).
Proof.
  intros Hname Hport Hh Hvalid Hflush.
  set (s1 := withAppPorts s (<[name := port]> (appPorts s))).
  assert (Hset : SetAppPort s name port = (None, s1)).
  { unfold SetAppPort. rewrite decide_False by done.
    destruct (port <=? 0) eqn:H1; [apply Z.leb_le in H1; lia |].
    destruct (port >? 65535) eqn:H2; [| done].
    rewrite Z.gtb_ltb in H2. apply Z.ltb_lt in H2. lia. }
  assert (Hload : ∀ s2 interval now',
            appPorts s2 = appPorts s1 → dataFile s2 = dataFile s →
            GetAppPort (LoadFromFile (NewAppPortStorage (dataFile s) interval)
                                     now' (saveToFile s2 now fs).2).1.2 name
            = (port, None)).
  { intros s2 interval now' Hm Hd.
    pose proof (Load_after_save s2 now fs interval now') as Hl.
    rewrite Hd, Hm in Hl. rewrite Hl by done.
    unfold GetAppPort; simpl. rewrite decide_False by done.
    by rewrite lookup_insert_eq. }
  cbn [events event]. rewrite Hset. cbn [snd].
  destruct Hflush as [-> | [[-> Hwg] | [-> Hopen]]]; cbn [event].
  - eexists _, _. split; [reflexivity |]. intros. by apply Hload.
  - eexists _, _. split; [reflexivity |]. intros. unfold tick.
    change (wg s1) with (wg s). destruct (wg s); [lia |]. by apply Hload.
  - unfold StopAutoSync. change (stopChan s1) with (stopChan s). rewrite Hopen.
    eexists _, _. split; [reflexivity |]. intros. by apply Hload.
Qed.

Lemma flush_persists_set_witness :
  ∃ s' fs',
    events (NewAppPortStorage "ports.json" 60000000000, emptyDisk)
           [EvSet "svc" 12345; EvStop 9] = Returned (s', fs') ∧
    GetAppPort (LoadFromFile (NewAppPortStorage "ports.json" 60000000000)
                             10 fs').1.2 "svc" = (12345, None).
Proof.
  destruct (flush_persists_set (NewAppPortStorage "ports.json" 60000000000)
              emptyDisk "svc" 12345 9 (EvStop 9))
    as (s' & fs' & He & Hget).
  - done.
  - lia.
  - done.
  - intros k [v Hk]. destruct (decide (k = "svc")) as [->|Hne]; [reflexivity |].
    rewrite lookup_insert_ne in Hk by done. simpl in Hk.
    by rewrite lookup_empty in Hk.
  - right. right. done.
  - exists s', fs'. split; [exact He | apply (Hget 60000000000 10)].
Defined.

End StorageMore.

(** ** The configuration *)

Module ConfigFacts.
Import Config.

Ltac refuse :=
  split;
  [ discriminate
  | intros ([[? ?] | (? & ? & ?)] & ? & ? & ?); first [congruence | lia] ].

Lemma Validate_iff c : Validate c = None ↔ valid c.
Proof.
  unfold Validate, check, valid. rewrite !Z.gtb_ltb.
  destruct (decide (ListenType (Server c) = "unix")) as [Hu|Hu];
    destruct (decide (ListenType (Server c) = "tcp")) as [Ht|Ht];
    rewrite ?(bool_decide_eq_true_2 _ Hu), ?(bool_decide_eq_false_2 _ Hu),
            ?(bool_decide_eq_true_2 _ Ht), ?(bool_decide_eq_false_2 _ Ht);
    cbn [negb andb]; try congruence; [| | refuse].
  - case_bool_decide; [refuse |].
    destruct (Z.leb_spec (MinPort (Port c)) 0); [refuse |].
    destruct (Z.leb_spec (MaxPort (Port c)) 0); [refuse |]. cbn [orb].
    destruct (Z.ltb_spec (MaxPort (Port c)) (MinPort (Port c))); [refuse |].
    case_bool_decide; [refuse |].
    destruct (Z.leb_spec (SyncInterval (Storage c)) 0); [refuse |].
    split; [intros _ | done]. split_and!; try done; try lia. by left.
  - case_bool_decide; [refuse |].
    destruct (Z.leb_spec (ListenPort (Server c)) 0); [refuse |].
    destruct (Z.ltb_spec 65535 (ListenPort (Server c))); [refuse |]. cbn [orb].
    destruct (Z.leb_spec (MinPort (Port c)) 0); [refuse |].
    destruct (Z.leb_spec (MaxPort (Port c)) 0); [refuse |]. cbn [orb].
    destruct (Z.ltb_spec (MaxPort (Port c)) (MinPort (Port c))); [refuse |].
    case_bool_decide; [refuse |].
    destruct (Z.leb_spec (SyncInterval (Storage c)) 0); [refuse |].
    split; [intros _ | done]. split_and!; try done; try lia.
    right. split_and!; try done; lia.
Qed.

(** X17: Validate returns no error exactly for a configuration whose
    listen type is unix with a socket path that is not empty, or tcp with a
    host that is not empty and a port of 1..65535, whose port range has
    1 <= MinPort <= MaxPort, whose data file path is not empty and whose
    sync interval is at least 1; the port range has no upper bound and the
    TCP port is not looked at for a unix listener. *)
Theorem Validate_accepts (c : Config) : Validate c = None ↔ valid c.
Proof. apply Validate_iff. Qed.

Lemma Validate_accepts_witness : valid DefaultConfig.
Proof. apply (Validate_accepts DefaultConfig). reflexivity. Defined.

(** X18: LoadConfig returns either a configuration or an error, never
    both and never neither; the configuration it returns, the default one
    of a missing file included, always passes Validate; and a file that
    decodes into a configuration Validate refuses gives the validation
    error that wraps the one of Validate. *)
Theorem LoadConfig_returns_valid (file : ConfigFile) :
  ((∃ c, LoadConfig file = (Some c, None) ∧ Validate c = None ∧ valid c) ∨
   (∃ err, LoadConfig file = (None, Some err))) ∧
  (∀ c err, file = Decoded c → Validate c = Some err →
            LoadConfig file = (None, Some (ErrInvalidConfig err))).
Proof.
  split.
  - destruct file as [| | |c]; simpl.
    + left. exists DefaultConfig. split_and!; [done | done |].
      by apply Validate_iff.
    + right. by eexists.
    + right. by eexists.
    + destruct (Validate c) as [err|] eqn:Hv.
      * right. by eexists.
      * left. exists c. split_and!; [done | done | by apply Validate_iff].
  - intros c err -> Hv. simpl. by rewrite Hv.
Qed.

Lemma LoadConfig_returns_valid_witness :
  LoadConfig (Decoded {| Server := Server DefaultConfig;
                         Port := {| MinPort := 20000; MaxPort := 10000 |};
                         Storage := Storage DefaultConfig |}) =
  (None, Some (ErrInvalidConfig ErrMinAboveMax)).
Proof.
  destruct (LoadConfig_returns_valid
              (Decoded {| Server := Server DefaultConfig;
                          Port := {| MinPort := 20000; MaxPort := 10000 |};
                          Storage := Storage DefaultConfig |})) as [_ Hbad].
  by apply (Hbad _ ErrMinAboveMax eq_refl).
Defined.

End ConfigFacts.

(** ** The handlers *)

Module ServerFacts.
Import Server.

Lemma wrap32_id z :
  GoInt32.MinInt32 ≤ z ≤ GoInt32.MaxInt32 → GoInt32.wrap z = z.
Proof.
  unfold GoInt32.wrap, GoInt32.MinInt32, GoInt32.MaxInt32. intros H.
  rewrite Z.mod_small; lia.
Qed.

Lemma wrap32_port z : 1 ≤ z ≤ 65535 → GoInt32.wrap z = z.
Proof.
  intros H. apply wrap32_id. unfold GoInt32.MinInt32, GoInt32.MaxInt32. lia.
Qed.

Lemma same_server s : withStorage s (storage s) = s.
Proof. by destruct s. Qed.

Lemma StorageSet_ok st name port :
  name ≠ "" → 1 ≤ port ≤ 65535 →
  Storage.SetAppPort st name port =
  (None, Storage.withAppPorts st (<[name := port]> (Storage.appPorts st))).
Proof.
  intros Hname Hport. unfold Storage.SetAppPort. rewrite decide_False by done.
  destruct (port <=? 0) eqn:H1; [apply Z.leb_le in H1; lia |].
  destruct (port >? 65535) eqn:H2; [| done].
  rewrite Z.gtb_ltb in H2. apply Z.ltb_lt in H2. lia.
Qed.

Lemma StorageSet_refused st name port :
  name = "" ∨ port ≤ 0 ∨ 65535 < port →
  ∃ err, Storage.SetAppPort st name port = (Some err, st).
Proof.
  intros Hbad. unfold Storage.SetAppPort.
  destruct (decide (name = "")); [by eexists |].
  destruct (port <=? 0) eqn:H1; [by eexists |].
  destruct (port >? 65535) eqn:H2; [by eexists |].
  apply Z.leb_gt in H1. rewrite Z.gtb_ltb in H2. apply Z.ltb_ge in H2.
  destruct Hbad as [? | ?]; [done | lia].
Qed.

Lemma StorageGet_cases st name :
  name ≠ "" →
  Storage.GetAppPort st name =
  match Storage.appPorts st !! name with
  | Some port => (port, None)
  | None => (0, Some (Storage.ErrNotFound name))
  end.
Proof.
  intros Hname. unfold Storage.GetAppPort. by rewrite decide_False by done.
Qed.

Lemma StorageDelete_cases st now fs name :
  name ≠ "" →
  Storage.DeleteAppPort st now fs name =
  match Storage.appPorts st !! name with
  | None => (Some (Storage.ErrNotFound name), st, fs)
  | Some _ =>
    let st' := Storage.withAppPorts st (delete name (Storage.appPorts st)) in
    ((Storage.saveToFile st' now fs).1, st', (Storage.saveToFile st' now fs).2)
  end.
Proof.
  intros Hname. unfold Storage.DeleteAppPort. rewrite decide_False by done.
  destruct (Storage.appPorts st !! name); [| done].
  by destruct (Storage.saveToFile _ now fs).
Qed.

Lemma HasApp_lookup st name :
  Storage.HasApp st name = bool_decide (is_Some (Storage.appPorts st !! name)).
Proof. done. Qed.

(** X19: the handler IsPortAvailable answers not available, with its
    error text and without any call into package net, for a port outside
    1..65535; for a port of 1..65535 it gives the answer of the manager
    without error, so it answers available only for a port that is also in
    the range of the manager, not reserved, and bindable on TCP and UDP. *)
Theorem IsPortAvailable_handler (s : PortServer) (os : Port.OS) (p : Z) :
  (p ≤ 0 ∨ 65535 < p →
     IsPortAvailable s os p =
     ({| Value := false; Error := Some ErrPortNumber |}, [])) ∧
  (1 ≤ p ≤ 65535 →
     IsPortAvailable s os p =
     ({| Value := (Port.IsPortAvailable (portManager s) os p).1;
         Error := None |},
      (Port.IsPortAvailable (portManager s) os p).2)) ∧
  (Value (IsPortAvailable s os p).1 = true →
     1 ≤ p ≤ 65535 ∧
     Port.minPort (portManager s) ≤ p ≤ Port.maxPort (portManager s) ∧
     Port.used (portManager s) p = false ∧
     Port.tcpListen os p = true ∧ Port.listenUDP os p = true).
Proof.
  unfold IsPortAvailable. rewrite Z.gtb_ltb.
  destruct (Z.leb_spec p 0); [| destruct (Z.ltb_spec 65535 p)]; cbn [orb].
  - split_and!; [done | lia | discriminate].
  - split_and!; [done | lia | discriminate].
  - split_and!; [lia | by destruct (Port.IsPortAvailable _ _ _) |].
    destruct (Port.IsPortAvailable (portManager s) os p) as [ok cs] eqn:Hav.
    simpl. intros ->.
    assert (H' : (Port.IsPortAvailable (portManager s) os p).1 = true)
      by by rewrite Hav.
    apply PortFacts.IsPortAvailable_true in H' as (? & ? & Hp).
    apply PortFacts.checkPortBySocket_true in Hp as (? & _ & ?).
    split_and!; try done; lia.
Qed.

Lemma IsPortAvailable_handler_witness :
  IsPortAvailable (NewPortServer Config.DefaultConfig) Port.allFree 70000 =
  ({| Value := false; Error := Some ErrPortNumber |}, []).
Proof.
  apply (IsPortAvailable_handler (NewPortServer Config.DefaultConfig)
           Port.allFree 70000). right. lia.
Defined.

(** X20: SetAppPort of the server returns no error exactly for a name
    that is not empty and a port of 1..65535; GetAppPort then answers that
    port for the name; the call reserves nothing in the port manager; and
    a call that returns an error leaves the server as it was. *)
Theorem SetAppPort_handler (s : PortServer) (name : string) (port : Z) :
  (Error (SetAppPort s name port).1 = None ↔ name ≠ "" ∧ 1 ≤ port ≤ 65535) ∧
  (Error (SetAppPort s name port).1 = None →
     GetAppPort (SetAppPort s name port).2 name =
     {| Value := port; Error := None |}) ∧
  portManager (SetAppPort s name port).2 = portManager s ∧
  (Error (SetAppPort s name port).1 ≠ None → (SetAppPort s name port).2 = s).
Proof.
  unfold SetAppPort.
  destruct (decide (name ≠ "" ∧ 1 ≤ port ≤ 65535)) as [[Hname Hport]|Hbad].
  - rewrite StorageSet_ok by done. cbn [fst snd Error fmap option_fmap option_map].
    split_and!; [done | | done | done].
    intros _. unfold GetAppPort, Storage.GetAppPort; simpl.
    rewrite decide_False by done. rewrite lookup_insert_eq.
    by rewrite wrap32_port.
  - destruct (StorageSet_refused (storage s) name port) as [err ->].
    { destruct (decide (name = "")); [by left | right].
      assert (¬ 1 ≤ port ≤ 65535) by (intros ?; by apply Hbad). lia. }
    cbn [fst snd Error fmap option_fmap option_map].
    split_and!; [split; [discriminate | done] | discriminate | done |].
    intros _. apply same_server.
Qed.

Lemma SetAppPort_handler_witness :
  GetAppPort (SetAppPort (NewPortServer Config.DefaultConfig) "svc" 12345).2
             "svc" = {| Value := 12345; Error := None |}.
Proof.
  by apply (SetAppPort_handler (NewPortServer Config.DefaultConfig) "svc" 12345).
Defined.

(** *** QuickSetAppPort *)

Lemma QuickSetAppPort_has e s name port :
  name ≠ "" → Storage.appPorts (storage s) !! name = Some port →
  QuickSetAppPort e s name =
  Returned ({| Value := GoInt32.wrap port; Error := None |}, s).
Proof.
  intros Hname Hport. unfold QuickSetAppPort.
  rewrite HasApp_lookup, bool_decide_eq_true_2 by by eexists.
  unfold Storage.GetAppPort. rewrite decide_False by done. by rewrite Hport.
Qed.

(** X21: QuickSetAppPort for a name that the registry knows draws no
    candidate and changes nothing: it answers the stored port, converted to
    int32, which is the stored port itself for a port of 1..65535; for the
    empty name, when the registry holds an entry for it, it answers the
    empty-name error. *)
Theorem QuickSetAppPort_known (e : Port.Env) (s : PortServer) (name : string)
    (port : Z) :
  Storage.appPorts (storage s) !! name = Some port →
  (name ≠ "" →
     QuickSetAppPort e s name =
     Returned ({| Value := GoInt32.wrap port; Error := None |}, s) ∧
     (1 ≤ port ≤ 65535 → GoInt32.wrap port = port)) ∧
  (name = "" →
     QuickSetAppPort e s name =
     Returned ({| Value := 0;
                  Error := Some (StorageFailure Storage.ErrEmptyName) |}, s)).
Proof.
  intros Hport. split.
  - intros Hname. split; [by apply QuickSetAppPort_has | apply wrap32_port].
  - intros ->. unfold QuickSetAppPort.
    rewrite HasApp_lookup, bool_decide_eq_true_2 by by eexists. done.
Qed.

Lemma QuickSetAppPort_known_witness :
  QuickSetAppPort (Port.counting Port.allFree)
    (SetAppPort (NewPortServer Config.DefaultConfig) "svc" 12345).2 "svc" =
  Returned ({| Value := GoInt32.wrap 12345; Error := None |},
            (SetAppPort (NewPortServer Config.DefaultConfig) "svc" 12345).2).
Proof.
  by apply (QuickSetAppPort_known (Port.counting Port.allFree)
              (SetAppPort (NewPortServer Config.DefaultConfig) "svc" 12345).2
              "svc" 12345 ltac:(reflexivity)).
Defined.

(** X22: QuickSetAppPort for a new name that is not empty, when
    GetRandomPort returns a port of 1..65535, answers that port without
    error, stores it for the name and leaves it reserved in the manager;
    any later QuickSetAppPort for the name answers the same port and
    changes nothing. *)
Theorem QuickSetAppPort_new (e : Port.Env) (s : PortServer) (name : string)
    (a : Port.Alloc Z) :
  name ≠ "" → Storage.appPorts (storage s) !! name = None →
  Port.GetRandomPort e (portManager s) = Returned a → Port.err a = None →
  1 ≤ Port.value a ≤ 65535 →
  ∃ s', QuickSetAppPort e s name =
        Returned ({| Value := Port.value a; Error := None |}, s') ∧
        Storage.GetAppPort (storage s') name = (Port.value a, None) ∧
        portManager s' = Port.mgr a ∧
        Port.used (portManager s') (Port.value a) = true ∧
        Port.minPort (portManager s) ≤ Port.value a ≤ Port.maxPort (portManager s) ∧
        ∀ e', QuickSetAppPort e' s' name =
              Returned ({| Value := Port.value a; Error := None |}, s').
Proof.
  intros Hname Hnone Ha Herr Hport.
  pose proof (PortFacts.GetRandomPort_loop_returned _ _ _ _ _ _ Ha) as Hl.
  rewrite Herr in Hl. destruct Hl as (j & _ & _ & _ & Hav & Hm & _).
  apply PortFacts.IsPortAvailable_true in Hav as (Hin & _ & _).
  eexists. split_and!.
  - unfold QuickSetAppPort.
    rewrite HasApp_lookup, bool_decide_eq_false_2
      by (rewrite Hnone; by intros [? ?]).
    rewrite Ha, Herr. cbn [withManager storage].
    rewrite StorageSet_ok by done. by rewrite wrap32_port.
  - unfold Storage.GetAppPort; simpl. rewrite decide_False by done.
    by rewrite lookup_insert_eq.
  - done.
  - simpl. rewrite Hm. apply PortFacts.markPortAsUsed_used.
  - lia.
  - lia.
  - intros e'. rewrite (QuickSetAppPort_has e' _ name (Port.value a)).
    + by rewrite wrap32_port.
    + done.
    + simpl. apply lookup_insert_eq.
Qed.

Lemma QuickSetAppPort_new_witness :
  ∃ s', QuickSetAppPort (Port.counting Port.allFree)
                        (NewPortServer Config.DefaultConfig) "svc" =
        Returned ({| Value := 10000; Error := None |}, s').
Proof.
  destruct (PortFacts.GetRandomPort_loop_total (Port.counting Port.allFree)
              (portManager (NewPortServer Config.DefaultConfig)) 100 0 []
              ltac:(by vm_compute)) as [a Ha].
  assert (Hv : Port.value a = 10000 ∧ Port.err a = None).
  { vm_compute in Ha. by injection Ha as <-. }
  destruct Hv as [Hv Herr].
  destruct (QuickSetAppPort_new (Port.counting Port.allFree)
              (NewPortServer Config.DefaultConfig) "svc" a
              ltac:(done) ltac:(reflexivity) Ha Herr ltac:(rewrite Hv; lia))
    as (s' & Hq & _).
  exists s'. by rewrite <- Hv.
Defined.



(** *** DeleteAppPort *)

Lemma saveToFile_cases (st : Storage.AppPortStorage) (now : Z) (fs : Storage.FS) :
  (Storage.mkdirAll fs (Storage.dataFile st) = false →
     Storage.saveToFile st now fs = (Some Storage.ErrMkdir, fs)) ∧
  (Storage.mkdirAll fs (Storage.dataFile st) = true →
     Storage.writeFile fs (Storage.dataFile st) ≠ Storage.WriteOK →
     (Storage.saveToFile st now fs).1 = Some Storage.ErrWrite) ∧
  (Storage.mkdirAll fs (Storage.dataFile st) = true →
     Storage.writeFile fs (Storage.dataFile st) = Storage.WriteOK →
     (Storage.saveToFile st now fs).1 = None).
Proof.
  unfold Storage.saveToFile, Storage.json_MarshalIndent.
  split_and!.
  - by intros ->.
  - intros -> Hw. simpl. by destruct (Storage.writeFile _ _).
  - by intros -> ->.
Qed.

(** X24: DeleteAppPort of the server answers the empty-name error on the
    empty name and the not-found error on a name without entry, and changes
    nothing then. On a name with an entry it releases the stored port in
    the manager, removes the entry and flushes the registry without the
    entry, and the releasing and the removing stay whether or not the flush
    succeeds; the error of the response is the one of the flush and the file
    system is as the flush left it: the error for the directory, with the
    file system untouched, when MkdirAll fails; the error for the write when
    WriteFile fails; none on a file system without faults. *)
Theorem DeleteAppPort_handler (s : PortServer) (now : Z) (fs : Storage.FS)
    (name : string) :
  (name = "" →
     DeleteAppPort s now fs name =
     ({| Value := tt; Error := Some (StorageFailure Storage.ErrEmptyName) |},
      s, fs)) ∧
  (name ≠ "" → Storage.appPorts (storage s) !! name = None →
     DeleteAppPort s now fs name =
     ({| Value := tt;
         Error := Some (StorageFailure (Storage.ErrNotFound name)) |}, s, fs)) ∧
  (name ≠ "" → ∀ port, Storage.appPorts (storage s) !! name = Some port →
     portManager (DeleteAppPort s now fs name).1.2 =
       Port.ReleasePort (portManager s) port ∧
     Port.used (portManager (DeleteAppPort s now fs name).1.2) port = false ∧
     Storage.appPorts (storage (DeleteAppPort s now fs name).1.2) =
       delete name (Storage.appPorts (storage s)) ∧
     Storage.HasApp (storage (DeleteAppPort s now fs name).1.2) name = false ∧
     (Storage.healthy fs (Storage.dataFile (storage s)) →
        Error (DeleteAppPort s now fs name).1.1 = None)) ∧
  (name ≠ "" → ∀ port, Storage.appPorts (storage s) !! name = Some port →
     let st := Storage.withAppPorts (storage s)
                 (delete name (Storage.appPorts (storage s))) in
     let flush := Storage.saveToFile st now fs in
     DeleteAppPort s now fs name =
       ({| Value := tt; Error := StorageFailure <$> flush.1 |},
        withStorage (withManager s (Port.ReleasePort (portManager s) port)) st,
        flush.2) ∧
     (∀ err, flush.1 = Some err →
        Error (DeleteAppPort s now fs name).1.1 = Some (StorageFailure err)) ∧
     (Storage.mkdirAll fs (Storage.dataFile (storage s)) = false →
        Error (DeleteAppPort s now fs name).1.1 =
          Some (StorageFailure Storage.ErrMkdir) ∧
        (DeleteAppPort s now fs name).2 = fs) ∧
     (Storage.mkdirAll fs (Storage.dataFile (storage s)) = true →
      Storage.writeFile fs (Storage.dataFile (storage s)) ≠ Storage.WriteOK →
        Error (DeleteAppPort s now fs name).1.1 =
          Some (StorageFailure Storage.ErrWrite))).
Proof.
  unfold DeleteAppPort. split_and!.
  - by intros ->.
  - intros Hname Hnone. rewrite decide_False by done.
    rewrite StorageGet_cases, Hnone by done.
    rewrite StorageDelete_cases, Hnone by done. simpl. by destruct s.
  - intros Hname port Hport. rewrite decide_False by done.
    rewrite StorageGet_cases, Hport by done.
    rewrite StorageDelete_cases by done. cbn [withManager storage].
    rewrite Hport. cbn [fst snd withStorage withManager portManager storage Error].
    split_and!; try done.
    + apply PortFacts.ReleasePort_frees.
    + rewrite HasApp_lookup. apply bool_decide_eq_false_2. simpl.
      rewrite lookup_delete_eq. by intros [? ?].
    + intros Hh. by rewrite StorageFacts.saveToFile_healthy.
  - intros Hname port Hport. rewrite decide_False by done.
    rewrite StorageGet_cases, Hport by done.
    rewrite StorageDelete_cases by done. cbn [withManager storage].
    rewrite Hport. cbn [fst snd Error].
    destruct (saveToFile_cases
                (Storage.withAppPorts (storage s)
                   (delete name (Storage.appPorts (storage s)))) now fs)
      as (Hmk & Hwr & _).
    change (Storage.dataFile (Storage.withAppPorts _ _))
      with (Storage.dataFile (storage s)) in Hmk, Hwr.
    split_and!.
    + done.
    + by intros err ->.
    + intros Hno. by rewrite (Hmk Hno).
    + intros Hyes Hw. by rewrite (Hwr Hyes Hw).
Qed.

Lemma DeleteAppPort_handler_witness :
  DeleteAppPort (NewPortServer Config.DefaultConfig) 0 Storage.emptyDisk "svc" =
  ({| Value := tt; Error := Some (StorageFailure (Storage.ErrNotFound "svc")) |},
   NewPortServer Config.DefaultConfig, Storage.emptyDisk).
Proof.
  by apply (DeleteAppPort_handler (NewPortServer Config.DefaultConfig) 0
              Storage.emptyDisk "svc").
Defined.

(** A registry holding svc on port 12345, reserved in the manager, and a
    file system whose MkdirAll fails: DeleteAppPort of the server answers
    the error of the flush, and the entry and the reservation are gone. *)
Example DeleteAppPort_flush_fails :
  let s := withStorage
             (withManager (NewPortServer Config.DefaultConfig)
                (Port.markPortAsUsed (portManager (NewPortServer Config.DefaultConfig))
                                     12345))
             (Storage.SetAppPort (storage (NewPortServer Config.DefaultConfig))
                                 "svc" 12345).2 in
  let fs := {| Storage.files := ∅; Storage.mkdirAll := λ _, false;
               Storage.readFile := λ _, true;
               Storage.writeFile := λ _, Storage.WriteOK |} in
  let r := DeleteAppPort s 0 fs "svc" in
  Error r.1.1 = Some (StorageFailure Storage.ErrMkdir) ∧
  Storage.HasApp (storage r.1.2) "svc" = false ∧
  Port.used (portManager r.1.2) 12345 = false ∧
  Storage.files r.2 = ∅.
Proof. by vm_compute. Qed.

(** *** The allocation handlers *)

(** X25: GetRandomPorts of the server answers the count error, without a
    draw and without a change, for a count that is not positive. For a
    positive count, when the manager returns fewer ports than asked, the
    response carries the error and no port, and the ports that were found
    stay reserved in the manager; when it returns them all, the response
    carries the ports converted to int32, as many as the count. *)
Theorem GetRandomPorts_handler (e : Port.Env) (s : PortServer) (count : Z) :
  (count ≤ 0 →
     GetRandomPorts e s count =
     Returned ({| Value := [];
                  Error := Some (PortFailure Port.ErrCountNotPositive) |}, s)) ∧
  (0 < count → ∀ a,
     Port.GetRandomPorts e (portManager s) count = Returned a →
     ∃ resp s', GetRandomPorts e s count = Returned (resp, s') ∧
       portManager s' = Port.mgr a ∧ storage s' = storage s ∧
       (∀ p, p ∈ Port.value a → Port.used (portManager s') p = true) ∧
       (Z.of_nat (length (Port.value a)) < count →
          Value resp = [] ∧
          Error resp =
          Some (PortFailure
                  (Port.ErrPartial (Z.of_nat (length (Port.value a))) count))) ∧
       (Z.of_nat (length (Port.value a)) = count →
          Value resp = GoInt32.wrap <$> Port.value a ∧ Error resp = None ∧
          Z.of_nat (length (Value resp)) = count)).
Proof.
  unfold GetRandomPorts. split.
  - intros Hc. apply Z.leb_le in Hc. by rewrite Hc.
  - intros Hc a Ha. destruct (count <=? 0) eqn:H0; [apply Z.leb_le in H0; lia |].
    rewrite Ha.
    destruct (PortFacts.GetRandomPorts_returned _ _ _ _ Ha Hc)
      as ([_ _ Hused _ _] & Hlen & _ & Hpart & Hfull).
    destruct (Port.err a) as [err|] eqn:Herr.
    + eexists _, _. split; [reflexivity |]. cbn [withManager portManager storage].
      split_and!; try done.
      * intros Hlt. destruct (Hpart Hlt) as [[= ->] _]. done.
      * intros Heq. by specialize (Hfull Heq).
    + eexists _, _. split; [reflexivity |]. cbn [withManager portManager storage].
      split_and!; try done.
      * intros Hlt. by destruct (Hpart Hlt).
      * intros Heq. cbn [Value Error]. by rewrite length_fmap.
Qed.

Lemma GetRandomPorts_handler_witness :
  GetRandomPorts (Port.counting Port.allFree)
                 (NewPortServer Config.DefaultConfig) 0 =
  Returned ({| Value := [];
               Error := Some (PortFailure Port.ErrCountNotPositive) |},
            NewPortServer Config.DefaultConfig).
Proof.
  apply (GetRandomPorts_handler (Port.counting Port.allFree)
           (NewPortServer Config.DefaultConfig) 0). lia.
Defined.

(** X26: GetRandomPort of the server, when the manager returns a port,
    answers that port converted to int32 without error and keeps it
    reserved; the port answered is the port reserved whenever the bounds of
    the range are int32 values; when the manager finds no port, it answers
    port 0 with the error and the server is unchanged. The registry is
    never touched. *)
Theorem GetRandomPort_handler (e : Port.Env) (s : PortServer)
    (a : Port.Alloc Z) :
  Port.GetRandomPort e (portManager s) = Returned a →
  ∃ resp s', GetRandomPort e s = Returned (resp, s') ∧
    portManager s' = Port.mgr a ∧ storage s' = storage s ∧
    (Port.err a = None →
       Value resp = GoInt32.wrap (Port.value a) ∧ Error resp = None ∧
       Port.used (portManager s') (Port.value a) = true ∧
       (GoInt32.MinInt32 ≤ Port.minPort (portManager s) →
        Port.maxPort (portManager s) ≤ GoInt32.MaxInt32 →
        Value resp = Port.value a)) ∧
    (∀ err, Port.err a = Some err →
       Value resp = 0 ∧ Error resp = Some (PortFailure err) ∧
       portManager s' = portManager s).
Proof.
  intros Ha. unfold GetRandomPort. rewrite Ha.
  pose proof (PortFacts.GetRandomPort_loop_returned _ _ _ _ _ _ Ha) as Hl.
  destruct (Port.err a) as [err|] eqn:Herr.
  - destruct Hl as (_ & _ & Hm & _).
    eexists _, _. split; [reflexivity |]. cbn [withManager portManager storage].
    split_and!; try done. intros ? [= <-]. done.
  - destruct Hl as (j & _ & _ & _ & Hav & Hm & _).
    apply PortFacts.IsPortAvailable_true in Hav as (Hin & _ & _).
    eexists _, _. split; [reflexivity |]. cbn [withManager portManager storage].
    split_and!; try done. intros _. cbn [Value Error]. split_and!; try done.
    + rewrite Hm. apply PortFacts.markPortAsUsed_used.
    + intros Hlo Hhi. apply wrap32_id. lia.
Qed.

Lemma GetRandomPort_handler_witness :
  ∃ resp s', GetRandomPort (Port.counting Port.allFree)
                           (NewPortServer Config.DefaultConfig) =
             Returned (resp, s').
Proof.
  destruct (PortFacts.GetRandomPort_loop_total (Port.counting Port.allFree)
              (portManager (NewPortServer Config.DefaultConfig)) 100 0 []
              ltac:(by vm_compute)) as [a Ha].
  destruct (GetRandomPort_handler (Port.counting Port.allFree)
              (NewPortServer Config.DefaultConfig) a Ha)
    as (resp & s' & Hr & _).
  by exists resp, s'.
Defined.

(** *** The server of a validated configuration *)

Lemma wrap_high z : 2 ^ 63 ≤ z ≤ 2 ^ 64 → GoInt.wrap z ≤ 0.
Proof.
  intros Hz. unfold GoInt.wrap.
  replace (z + 2 ^ 63) with ((z - 2 ^ 63) + 1 * 2 ^ 64) by lia.
  rewrite Z.mod_add by lia.
  destruct (decide (z = 2 ^ 64)) as [->|Hne]; [by vm_compute |].
  rewrite Z.mod_small; lia.
Qed.

(** The wrap-around of [z] is not positive exactly when [z] lies at most
    2^63 below a multiple of 2^64. *)
Lemma wrap_nonpos z :
  GoInt.wrap z ≤ 0 ↔ ∃ k, k * 2 ^ 64 - 2 ^ 63 ≤ z ≤ k * 2 ^ 64.
Proof.
  unfold GoInt.wrap. split.
  - intros Hw. exists ((z + 2 ^ 63) `div` 2 ^ 64).
    pose proof (Z.div_mod (z + 2 ^ 63) (2 ^ 64) ltac:(lia)) as Hdm.
    pose proof (Z.mod_pos_bound (z + 2 ^ 63) (2 ^ 64) ltac:(lia)) as Hb.
    lia.
  - intros [k Hk].
    replace (z + 2 ^ 63) with ((z + 2 ^ 63 - k * 2 ^ 64) + k * 2 ^ 64) by lia.
    rewrite Z.mod_add by lia. rewrite Z.mod_small; lia.
Qed.

Lemma StartAutoSync_cases (st : Storage.AppPortStorage) :
  (Storage.syncInterval st ≤ 0 →
     Storage.StartAutoSync st = Panicked PanicNewTicker) ∧
  (0 < Storage.syncInterval st →
     ∃ st', Storage.StartAutoSync st = Returned st' ∧
            Storage.wg st' = S (Storage.wg st)).
Proof.
  unfold Storage.StartAutoSync. split; intros H.
  - apply Z.leb_le in H. by rewrite H.
  - apply Z.leb_gt in H. rewrite H. by eexists.
Qed.

(** X27: the server NewPortServer builds from a configuration that passes
    Validate starts with an empty registry; when MaxPort is an int, its
    GetRandomPort, QuickSetAppPort and GetRandomPorts (for a count within
    the capacity limit of a slice) never panic; StartAutoSync returns with
    one flush loop when the interval in seconds times [time.Second] is an
    int64, and panics in time.NewTicker when that product overflows to a
    value that is not positive, which Validate does not exclude. The panic
    happens exactly when the product wraps around to a value that is not
    positive, which is when the product lies at most 2^63 below a multiple
    of 2^64; in every other case StartAutoSync returns with one flush
    loop. *)
Theorem NewPortServer_of_valid (cfg : Config.Config) (e : Port.Env) :
  Config.Validate cfg = None →
  let s := NewPortServer cfg in
  Storage.appPorts (storage s) = ∅ ∧
  (Config.MaxPort (Config.Port cfg) ≤ GoInt.MaxInt →
     ¬ panics (GetRandomPort e s) ∧
     (∀ name, ¬ panics (QuickSetAppPort e s name)) ∧
     (∀ count, count ≤ Port.maxSliceCap → ¬ panics (GetRandomPorts e s count))) ∧
  (Config.SyncInterval (Config.Storage cfg) * Second ≤ GoInt.MaxInt →
     ∃ st, Storage.StartAutoSync (storage s) = Returned st ∧
           Storage.wg st = 1%nat) ∧
  (2 ^ 63 ≤ Config.SyncInterval (Config.Storage cfg) * Second ≤ 2 ^ 64 →
     Storage.StartAutoSync (storage s) = Panicked PanicNewTicker) ∧
  (GoInt.mul (Config.SyncInterval (Config.Storage cfg)) Second ≤ 0 ↔
     Storage.StartAutoSync (storage s) = Panicked PanicNewTicker) ∧
  (0 < GoInt.mul (Config.SyncInterval (Config.Storage cfg)) Second ↔
     ∃ st, Storage.StartAutoSync (storage s) = Returned st ∧
           Storage.wg st = 1%nat) ∧
  ((∃ k, k * 2 ^ 64 - 2 ^ 63 ≤
           Config.SyncInterval (Config.Storage cfg) * Second ≤ k * 2 ^ 64) ↔
     Storage.StartAutoSync (storage s) = Panicked PanicNewTicker).
Proof.
  intros (_ & Hports & _ & Hsync)%ConfigFacts.Validate_iff s.
  assert (Hpanic : GoInt.mul (Config.SyncInterval (Config.Storage cfg)) Second ≤ 0 ↔
                   Storage.StartAutoSync (storage s) = Panicked PanicNewTicker).
  { destruct (StartAutoSync_cases (storage s)) as (Hno & Hyes).
    change (Storage.syncInterval (storage s))
      with (GoInt.mul (Config.SyncInterval (Config.Storage cfg)) Second) in Hno, Hyes.
    split; [done |]. intros Hp.
    destruct (Z_le_gt_dec (GoInt.mul (Config.SyncInterval (Config.Storage cfg)) Second) 0)
      as [|Hgt]; [done |].
    destruct Hyes as (st & Hst & _); [lia | congruence]. }
  split_and!; [done | | | | done | |].
  - intros Hint.
    assert (Hs : 0 < Port.span (portManager s)).
    { rewrite PortFacts.span_forwards; subst s; simpl;
        unfold GoInt.MaxInt in *; lia. }
    assert (Hone : ∀ e', ∃ a, Port.GetRandomPort e' (portManager s) = Returned a)
      by (intros e'; by apply PortFacts.GetRandomPort_loop_total).
    split_and!.
    + intros [why Hp]. unfold GetRandomPort in Hp.
      destruct (Hone e) as [a Ha]. rewrite Ha in Hp. by destruct (Port.err a).
    + intros name [why Hp]. unfold QuickSetAppPort in Hp.
      destruct (Storage.HasApp _ _).
      { by destruct (Storage.GetAppPort _ _) as [? []]. }
      destruct (Hone e) as [a Ha]. rewrite Ha in Hp.
      destruct (Port.err a); [done |].
      by destruct (Storage.SetAppPort _ _ _) as [[] ?].
    + intros count Hcap [why Hp]. unfold GetRandomPorts in Hp.
      destruct (count <=? 0); [done |].
      destruct (PortFacts.GetRandomPorts_total e (portManager s) count Hs Hcap)
        as [a Ha].
      rewrite Ha in Hp. by destruct (Port.err a).
  - intros Hfit. unfold Storage.StartAutoSync. subst s. simpl.
    unfold GoInt.mul. rewrite GoIntFacts.wrap_id.
    + destruct (_ <=? 0) eqn:H; [apply Z.leb_le in H; unfold Second in *; lia |].
      by eexists.
    + unfold GoInt.MinInt, GoInt.MaxInt, Second in *. lia.
  - intros Hover. unfold Storage.StartAutoSync. subst s. simpl.
    unfold GoInt.mul. pose proof (wrap_high _ Hover) as Hw.
    apply Z.leb_le in Hw. by rewrite Hw.
  - destruct (StartAutoSync_cases (storage s)) as (Hno & Hyes).
    change (Storage.syncInterval (storage s))
      with (GoInt.mul (Config.SyncInterval (Config.Storage cfg)) Second) in Hno, Hyes.
    change (Storage.wg (storage s)) with O in Hyes.
    split; [done |]. intros (st & Hst & _).
    destruct (Z_le_gt_dec (GoInt.mul (Config.SyncInterval (Config.Storage cfg)) Second) 0)
      as [Hle|]; [| lia].
    rewrite (Hno Hle) in Hst. discriminate.
  - rewrite <- Hpanic. unfold GoInt.mul. symmetry. apply wrap_nonpos.
Qed.

Lemma NewPortServer_of_valid_witness :
  ∃ st, Storage.StartAutoSync (storage (NewPortServer Config.DefaultConfig)) =
        Returned st ∧ Storage.wg st = 1%nat.
Proof.
  destruct (NewPortServer_of_valid Config.DefaultConfig
              (Port.counting Port.allFree) ltac:(reflexivity))
    as (_ & _ & Hstart & _).
  apply Hstart. by vm_compute.
Defined.

(** A sync interval of 9223372037 seconds passes Validate and its
    duration overflows: StartAutoSync panics. *)
Example StartAutoSync_overflow :
  let cfg := {| Config.Server := Config.Server Config.DefaultConfig;
                Config.Port := Config.Port Config.DefaultConfig;
                Config.Storage := {| Config.DataFile := "./data/ports.json";
                                     Config.SyncInterval := 9223372037 |} |} in
  Config.Validate cfg = None ∧
  Storage.StartAutoSync (storage (NewPortServer cfg)) = Panicked PanicNewTicker.
Proof. split; by vm_compute. Qed.

(** So does one of 27670116111 seconds, whose duration lies beyond 2^64 and
    wraps around a second time; one of 18446744074 seconds wraps around to a
    positive duration of less than a second, and StartAutoSync returns. *)
Example StartAutoSync_overflow_again :
  let cfg interval :=
    {| Config.Server := Config.Server Config.DefaultConfig;
       Config.Port := Config.Port Config.DefaultConfig;
       Config.Storage := {| Config.DataFile := "./data/ports.json";
                            Config.SyncInterval := interval |} |} in
  Config.Validate (cfg 27670116111) = None ∧
  Storage.StartAutoSync (storage (NewPortServer (cfg 27670116111))) =
    Panicked PanicNewTicker ∧
  Config.Validate (cfg 18446744074) = None ∧
  Storage.syncInterval (storage (NewPortServer (cfg 18446744074))) = 290448384 ∧
  ¬ panics (Storage.StartAutoSync (storage (NewPortServer (cfg 18446744074)))).
Proof.
  split_and!; try by vm_compute.
  intros [why Hp]. vm_compute in Hp. discriminate.
Qed.

(** *** A port assigned and given back *)

(** X28: when QuickSetAppPort assigns a port to a new name and
    DeleteAppPort of the server is then called for that name, the name has
    no entry any more and every port is reserved in the manager exactly as
    it was before the assignment, the assigned port being free again,
    whether or not the flush of the deletion succeeds. *)
Theorem QuickSetAppPort_then_DeleteAppPort (e : Port.Env) (s s1 : PortServer)
    (name : string) (resp : Response Z) (now : Z) (fs : Storage.FS) :
  name ≠ "" → Storage.appPorts (storage s) !! name = None →
  QuickSetAppPort e s name = Returned (resp, s1) → Error resp = None →
  ∃ p, Storage.GetAppPort (storage s1) name = (p, None) ∧
       Port.used (portManager s) p = false ∧
       Port.used (portManager s1) p = true ∧
       Storage.HasApp (storage (DeleteAppPort s1 now fs name).1.2) name = false ∧
       ∀ q, Port.used (portManager (DeleteAppPort s1 now fs name).1.2) q =
            Port.used (portManager s) q.
Proof.
  intros Hname Hnone Hq Herr. unfold QuickSetAppPort in Hq.
  rewrite HasApp_lookup, bool_decide_eq_false_2 in Hq
    by (rewrite Hnone; by intros [? ?]).
  destruct (Port.GetRandomPort e (portManager s)) as [a|] eqn:Ha; [| done].
  pose proof (PortFacts.GetRandomPort_loop_returned _ _ _ _ _ _ Ha) as Hl.
  destruct (Port.err a) as [er|] eqn:Hea.
  { injection Hq as <- _. discriminate. }
  destruct Hl as (j & _ & _ & _ & Hav & Hm & _).
  apply PortFacts.IsPortAvailable_true in Hav as (_ & Hfree & _).
  cbn [withManager storage] in Hq.
  destruct (Storage.SetAppPort (storage s) name (Port.value a)) as [[er|] st] eqn:Hset.
  { injection Hq as <- _. discriminate. }
  injection Hq as _ <-.
  assert (Hst : st = Storage.withAppPorts (storage s)
                       (<[name := Port.value a]> (Storage.appPorts (storage s)))).
  { unfold Storage.SetAppPort in Hset. rewrite decide_False in Hset by done.
    destruct (_ || _); [discriminate |]. by injection Hset as <-. }
  subst st. exists (Port.value a).
  assert (Hstored : Storage.appPorts
                      (storage (withStorage (withManager s (Port.mgr a))
                         (Storage.withAppPorts (storage s)
                            (<[name := Port.value a]>
                               (Storage.appPorts (storage s))))))
                    !! name = Some (Port.value a)).
  { simpl. apply lookup_insert_eq. }
  split_and!.
  - by rewrite StorageGet_cases, Hstored.
  - done.
  - simpl. rewrite Hm. apply PortFacts.markPortAsUsed_used.
  - unfold DeleteAppPort. rewrite decide_False by done.
    rewrite StorageGet_cases, Hstored by done.
    rewrite StorageDelete_cases by done. cbn [withManager storage].
    rewrite Hstored. cbn [fst snd withStorage storage].
    rewrite HasApp_lookup. apply bool_decide_eq_false_2. simpl.
    rewrite lookup_delete_eq. by intros [? ?].
  - intros q. unfold DeleteAppPort. rewrite decide_False by done.
    rewrite StorageGet_cases, Hstored by done.
    rewrite StorageDelete_cases by done. cbn [withManager storage].
    rewrite Hstored. cbn [fst snd withStorage withManager portManager].
    rewrite Hm. destruct (decide (q = Port.value a)) as [->|Hne].
    + by rewrite PortFacts.ReleasePort_frees.
    + unfold Port.used, Port.ReleasePort, Port.markPortAsUsed; simpl.
      rewrite lookup_delete_ne by done. by rewrite lookup_insert_ne.
Qed.

Lemma QuickSetAppPort_then_DeleteAppPort_witness :
  ∃ s1 resp,
    QuickSetAppPort (Port.counting Port.allFree)
                    (NewPortServer Config.DefaultConfig) "svc" =
    Returned (resp, s1) ∧
    Storage.HasApp (storage (DeleteAppPort s1 1 Storage.emptyDisk "svc").1.2)
                   "svc" = false.
Proof.
  destruct (QuickSetAppPort (Port.counting Port.allFree)
              (NewPortServer Config.DefaultConfig) "svc")
    as [[resp s1]|] eqn:Hq; [| by vm_compute in Hq].
  assert (Herr : Error resp = None).
  { vm_compute in Hq. by injection Hq as <- _. }
  destruct (QuickSetAppPort_then_DeleteAppPort (Port.counting Port.allFree)
              (NewPortServer Config.DefaultConfig) s1 "svc" resp 1
              Storage.emptyDisk ltac:(done) ltac:(reflexivity) Hq Herr)
    as (p & _ & _ & _ & Hhas & _).
  by exists s1, resp.
Defined.

End ServerFacts.
